(** * fsys: a storage interface with interchangeable backends

    A shallow embedding of the in-memory backend ([memory_storage.go]) and of
    the Google Cloud Storage backend ([google_cloud_storage.go]), and the
    properties of the storage contract that hold (or fail) on them.

    Conventions.
    - A Go result [(T, error)] of a method of this package is a pair of
      options, [None] standing for [nil]: the code can and does return
      [(nil, nil)].
    - A method with a receiver takes the state it works on and returns the
      state it leaves (explicit state passing); the reader/writer lock of the
      memory backend disappears, calls being taken one at a time.
    - The Go heap is modelled where slices are shared: a byte slice is the
      address of its backing array.
    - The storage client and the operating system are outside the package:
      a method of the GCS backend is a program of requests, run against any
      client; a reference client with failure injection gives the requests
      their documented meaning where a property is about what is stored.

    Left out: the constructors' credential handling and [Driver]. *)

From stdpp Require Import gmap strings list fin_maps.
From Stdlib Require Import Strings.Byte.

(** ** Go values shared by the backends *)

Abbreviation bytes := (list byte).

(** The error values the package produces or tests for. Go compares them by
    identity ([err == storage.ErrObjectNotExist]); [errors_New] stands for
    [errors.New(msg)] and for any other error a library hands back. *)
Inductive error : Type :=
| ErrNotExist                    (* os.ErrNotExist *)
| ErrObjectNotExist              (* storage.ErrObjectNotExist *)
| errors_New (msg : string).

#[global] Instance error_eq_dec : EqDecision error.
Proof. solve_decision. Defined.

(** [multipart.File], read as an [io.Reader]: the bytes it yields, and then
    either [io.EOF] ([rerr = None]) or a read error. *)
Record Stream : Type := { data : bytes; rerr : option error }.

(** [multipart.FileHeader]: only [Filename] is used. *)
Record FileHeader : Type := { Filename : string }.

(** [*os.File]: a file descriptor. *)
Record OsFile : Type := { fd : nat }.

(** The bytes of "hello", the content of the package's usual scenario. *)
Definition hello : bytes := [x68; x65; x6c; x6c; x6f]%byte.

(** [strings.HasSuffix(s, suffix)]:
    [len(s) >= len(suffix) && s[len(s)-len(suffix):] == suffix]. *)
Definition HasSuffix (s suffix : string) : bool :=
  (String.length suffix <=? String.length s)%nat
  && String.eqb
       (String.substring (String.length s - String.length suffix)
          (String.length suffix) s)
       suffix.

(** What "the path ends with the separator" means, said without the code. *)
Definition ends_with (s suffix : string) : Prop :=
  exists q : string, s = q +:+ suffix.

(** [err.Error()]: the message of an error. *)
Definition Error (e : error) : string :=
  match e with
  | ErrNotExist => "file does not exist"
  | ErrObjectNotExist => "storage: object doesn't exist"
  | errors_New msg => msg
  end.

(** [strings.Contains(s, substr)]: [substr] starts at some index of [s]. *)
Fixpoint Contains (s substr : string) : bool :=
  String.prefix substr s
  || match s with
     | EmptyString => false
     | String _ rest => Contains rest substr
     end.

(** What "[substr] occurs in [s]" means, said without the code. *)
Definition occurs_in (substr s : string) : Prop :=
  exists a b : string, s = a +:+ substr +:+ b.

(** ** The memory backend *)

Module Memory.

(** Addresses of backing arrays. The heap only grows: nothing in the
    package frees or overwrites an array. *)
Definition addr : Type := nat.

(** [bytes.Buffer], as far as the package uses it: the slice [buf]. No
    code reads from a stored buffer, so its read offset stays 0 and
    [Bytes()] is [buf] itself. *)
Record Buffer : Type := { buf : addr }.

(** [bytes.NewBuffer(s)] takes the slice over, it does not copy it. *)
Definition NewBuffer (s : addr) : Buffer := {| buf := s |}.
Definition Bytes (b : Buffer) : addr := buf b.

(** [type File struct { Name string; Content *bytes.Buffer }]. No field of
    a [File] is assigned after the struct literal that builds it, so the
    map holds the struct itself for [*File]. *)
Record File : Type := { Name : string; Content : Buffer }.

(** [bytes.Reader]: the slice [s] and the read index [i]. *)
Record Reader : Type := { s : addr; i : nat }.

(** [bytes.NewReader(b)]. *)
Definition NewReader (b : addr) : Reader := {| s := b; i := 0 |}.

(** [MemoryStorage] with the part of the heap it points into. *)
Record state : Type := { files : gmap string File; heap : list bytes }.

(** A new backing array holding [c]. *)
Definition alloc (c : bytes) (h : list bytes) : addr * list bytes :=
  (length h, h ++ [c]).

(** [io.ReadAll(r)]: what is left of the slice after the read index. *)
Definition ReadAll (h : list bytes) (r : Reader) : option bytes :=
  drop (i r) <$> h !! s r.

Definition NewMemoryStorage : state := {| files := ∅; heap := [] |}.

Definition Read (path : string) (fs : state) : option Reader * option error :=
  match files fs !! path with
  | None => (None, Some ErrNotExist)
  | Some file => (Some (NewReader (Bytes (Content file))), None)
  end.

(** The slice [contents] of the caller enters the heap at a new address;
    the stored buffer is that slice. *)
Definition Write (path : string) (contents : bytes) (fs : state)
  : option error * state :=
  let '(a, h) := alloc contents (heap fs) in
  (None,
   {| files := <[path := {| Name := path; Content := NewBuffer a |}]> (files fs);
      heap := h |}).

Definition Delete (path : string) (fs : state) : option error * state :=
  match files fs !! path with
  | None => (Some ErrNotExist, fs)
  | Some _ => (None, {| files := delete path (files fs); heap := heap fs |})
  end.

Definition Exists (path : string) (fs : state) : bool * option error :=
  (bool_decide (is_Some (files fs !! path)), None).

Definition Rename (oldPath newPath : string) (fs : state)
  : option error * state :=
  match files fs !! oldPath with
  | None => (Some ErrNotExist, fs)
  | Some file =>
      (None,
       {| files := delete oldPath (<[newPath := file]> (files fs));
          heap := heap fs |})
  end.

(** The new buffer is built on [sourceFile.Content.Bytes()]: the copy
    shares the backing array of its source. *)
Definition Copy (sourcePath destinationPath : string) (fs : state)
  : option error * state :=
  match files fs !! sourcePath with
  | None => (Some ErrNotExist, fs)
  | Some sourceFile =>
      (None,
       {| files :=
            <[destinationPath :=
                {| Name := destinationPath;
                   Content := NewBuffer (Bytes (Content sourceFile)) |}]>
              (files fs);
          heap := heap fs |})
  end.

Definition CreateDirectory (path : string) (fs : state)
  : option error * state :=
  if negb (HasSuffix path "/")
  then (Some (errors_New "directory path must end with '/'"), fs)
  else (None, fs).

Definition GetUrl (path : string) (fs : state) : string * option error :=
  if negb (fst (Exists path fs))
  then ("", Some ErrNotExist)
  else ("mem://" +:+ path, None).

Definition Open (path : string) (fs : state) : option OsFile * option error :=
  (None, Some (errors_New "open is not supported for in-memory storage")).

Section WithJoin.

(** [filepath.Join] of Go's standard library, taken as it comes. *)
Variable filepath_Join : string -> string -> string.

(** [var buf bytes.Buffer; io.Copy(&buf, file)] fills a new array with
    what the stream yields, also when the stream then fails. *)
Definition Upload (file : Stream) (header : FileHeader) (dir : string)
    (fs : state) : (option OsFile * option error) * state :=
  let '(a, h) := alloc (data file) (heap fs) in
  match rerr file with
  | Some err => ((None, Some err), {| files := files fs; heap := h |})
  | None =>
      let filePath := filepath_Join dir (Filename header) in
      ((None, None),
       {| files :=
            <[filePath := {| Name := filePath; Content := NewBuffer a |}]>
              (files fs);
          heap := h |})
  end.

(** One call of the interface, and the state it leaves. *)
Inductive op : Type :=
| OpRead (path : string)
| OpWrite (path : string) (contents : bytes)
| OpDelete (path : string)
| OpExists (path : string)
| OpRename (oldPath newPath : string)
| OpCopy (sourcePath destinationPath : string)
| OpCreateDirectory (path : string)
| OpGetUrl (path : string)
| OpOpen (path : string)
| OpUpload (file : Stream) (header : FileHeader) (dir : string).

Definition step (o : op) (fs : state) : state :=
  match o with
  | OpWrite p c => snd (Write p c fs)
  | OpDelete p => snd (Delete p fs)
  | OpRename a b => snd (Rename a b fs)
  | OpCopy a b => snd (Copy a b fs)
  | OpCreateDirectory p => snd (CreateDirectory p fs)
  | OpUpload f hd d => snd (Upload f hd d fs)
  | OpRead _ | OpExists _ | OpGetUrl _ | OpOpen _ => fs
  end.

Definition exec (ops : list op) (fs : state) : state :=
  foldl (fun st o => step o st) fs ops.

(** The calls that can store to [p] or remove it: a write or an upload
    to [p], a delete of [p], a rename from or to [p], a copy to [p]. *)
Definition affects (p : string) (o : op) : bool :=
  match o with
  | OpWrite q _ | OpDelete q => bool_decide (q = p)
  | OpRename a b => bool_decide (a = p) || bool_decide (b = p)
  | OpCopy _ b => bool_decide (b = p)
  | OpUpload _ hd d => bool_decide (filepath_Join d (Filename hd) = p)
  | OpRead _ | OpExists _ | OpCreateDirectory _ | OpGetUrl _ | OpOpen _ => false
  end.

(** The error a call returns, for the calls that can change the store. *)
Definition err_of (o : op) (fs : state) : option error :=
  match o with
  | OpWrite p c => fst (Write p c fs)
  | OpDelete p => fst (Delete p fs)
  | OpRename a b => fst (Rename a b fs)
  | OpCopy a b => fst (Copy a b fs)
  | OpCreateDirectory p => fst (CreateDirectory p fs)
  | OpUpload f hd d => snd (fst (Upload f hd d fs))
  | OpRead _ | OpExists _ | OpGetUrl _ | OpOpen _ => None
  end.

(** What happens between two calls: a call of the interface, or the caller
    assigning [s[i] = b] through a slice [s] it holds. [Write] keeps the
    slice it is given ([bytes.NewBuffer] does not copy), so the caller of
    [Write] holds a slice on the stored array. An index out of range
    panics in the caller and changes nothing. *)
Inductive action : Type :=
| Call (o : op)
| Store (s : addr) (i : nat) (b : byte).

Definition act (x : action) (fs : state) : state :=
  match x with
  | Call o => step o fs
  | Store s i b =>
      {| files := files fs; heap := alter (fun arr => <[i := b]> arr) s (heap fs) |}
  end.

Definition perform (xs : list action) (fs : state) : state :=
  foldl (fun st x => act x st) fs xs.

(** An action that changes what is read at [p], whose stored array is at
    [s]: a successful call that stores to [p] or removes it, or an
    assignment through a slice on [s]. *)
Definition disturbs (p : string) (s : addr) (x : action) (fs : state) : bool :=
  match x with
  | Call o => affects p o && bool_decide (err_of o fs = None)
  | Store s' _ _ => bool_decide (s' = s)
  end.

(** None of the actions, each taken in the state it is performed in,
    disturbs [p]. *)
Fixpoint undisturbed (p : string) (s : addr) (xs : list action) (fs : state)
  : bool :=
  match xs with
  | [] => true
  | x :: rest => negb (disturbs p s x fs) && undisturbed p s rest (act x fs)
  end.

End WithJoin.

(** What a caller reads back at [path]: [Read], then [io.ReadAll]. *)
Definition contents (fs : state) (path : string) : option bytes :=
  match Read path fs with
  | (Some r, None) => ReadAll (heap fs) r
  | _ => None
  end.

(** Every stored buffer points into the heap (Go's memory safety). *)
Definition wf (fs : state) : Prop :=
  map_Forall (fun _ f => buf (Content f) < length (heap fs)) (files fs).

(** [path] maps to [f], whose backing array holds [c]. *)
Definition holds (fs : state) (path : string) (f : File) (c : bytes) : Prop :=
  files fs !! path = Some f /\ heap fs !! buf (Content f) = Some c.

#[global] Instance wf_dec (fs : state) : Decision (wf fs).
Proof. unfold wf. apply _. Defined.

(** [filepath.Join(dir, name)] where it only has to put the separator in:
    two non-empty elements without an empty, "." or ".." component and
    without a trailing separator. Used for concrete runs only. *)
Definition Join_clean (dir name : string) : string := dir +:+ "/" +:+ name.

(** Every entry is filed under its own [Name]. *)
Definition names_ok (fs : state) : Prop :=
  map_Forall (fun path f => Name f = path) (files fs).

#[global] Instance names_ok_dec (fs : state) : Decision (names_ok fs).
Proof. unfold names_ok. apply _. Defined.

(** A call that is a rename. *)
Definition is_rename (o : op) : bool :=
  match o with
  | OpRename _ _ => true
  | _ => false
  end.

(** The store after [Write("a", "hello")] on a new backend. *)
Definition one_file : state := snd (Write "a" hello NewMemoryStorage).

End Memory.


(** ** The Google Cloud Storage backend *)

Module GCS.

(** [GCSStorage]: the bucket name. The [Client] field is the environment the
    methods talk to: it is not a value of the model but the handler a
    program is run with. *)
Record GCSStorage : Type := { BucketName : string }.

(** [Client.Bucket(b).Object(p)]: a reference, made without any request. *)
Record ObjectHandle : Type := { bucket : string; object : string }.

Definition Object (gcs : GCSStorage) (path : string) : ObjectHandle :=
  {| bucket := BucketName gcs; object := path |}.

(** [utf8.ValidString]: [need] continuation bytes are still due, the next
    of them within [lo..hi]. *)
Fixpoint utf8_from (need : nat) (lo hi : N) (s : string) : bool :=
  match s with
  | EmptyString => Nat.eqb need 0
  | String ch rest =>
      let b := Ascii.N_of_ascii ch in
      match need with
      | 0 =>
          if (b <? 0x80)%N then utf8_from 0 0x80 0xBF rest
          else if ((0xC2 <=? b) && (b <=? 0xDF))%N then utf8_from 1 0x80 0xBF rest
          else if (b =? 0xE0)%N then utf8_from 2 0xA0 0xBF rest
          else if (((0xE1 <=? b) && (b <=? 0xEC)) || (b =? 0xEE) || (b =? 0xEF))%N
          then utf8_from 2 0x80 0xBF rest
          else if (b =? 0xED)%N then utf8_from 2 0x80 0x9F rest
          else if (b =? 0xF0)%N then utf8_from 3 0x90 0xBF rest
          else if ((0xF1 <=? b) && (b <=? 0xF3))%N then utf8_from 3 0x80 0xBF rest
          else if (b =? 0xF4)%N then utf8_from 3 0x80 0x8F rest
          else false
      | S n => ((lo <=? b) && (b <=? hi))%N && utf8_from n 0x80 0xBF rest
      end
  end.

Definition utf8_ValidString (s : string) : bool := utf8_from 0 0x80 0xBF s.

(** The object references the client library takes. Before any request it
    refuses an empty bucket name, an empty object name, an object name that
    is not valid UTF-8, and the object names "." and ".."
    ([ObjectHandle.validate], and the same check of the name when a writer
    opens). *)
Definition accepted (o : ObjectHandle) : bool :=
  negb (String.eqb (bucket o) "")
  && negb (String.eqb (object o) "")
  && utf8_ValidString (object o)
  && negb (String.eqb (object o) ".")
  && negb (String.eqb (object o) "..").

(** [*storage.ObjectAttrs]; the package ignores its contents. *)
Record ObjectAttrs : Type := { Size : nat }.

(** [*storage.Reader]: the bytes of the object generation it was opened on. *)
Record StorageReader : Type := { body : bytes }.

(** [*storage.Writer]: which writer, and on which object. *)
Record StorageWriter : Type := { wid : nat; target : ObjectHandle }.

(** The requests the package makes to the storage client and to the
    operating system, each with the type of its answer. A library function
    returning [(T, error)] answers [T + error]; one returning [(n, error)]
    answers the pair. *)
Inductive call : Type -> Type :=
| NewReader (o : ObjectHandle) : call (StorageReader + error)
| ReaderClose (rc : StorageReader) : call (option error)
| NewWriter (o : ObjectHandle) : call StorageWriter
| WriterWrite (w : StorageWriter) (p : bytes) : call (nat * option error)
| WriterClose (w : StorageWriter) : call (option error)
| io_Copy_Writer (dst : StorageWriter) (src : Stream) : call (nat * option error)
| ObjDelete (o : ObjectHandle) : call (option error)
| ObjAttrs (o : ObjectHandle) : call (ObjectAttrs + error)
| CopierRun (dst src : ObjectHandle) : call (ObjectAttrs + error)
| os_CreateTemp (dir pattern : string) : call (OsFile + error)
| io_Copy_File (dst : OsFile) (src : StorageReader) : call (nat * option error)
| FileSeek (f : OsFile) (offset whence : nat) : call (nat * option error)
| FileClose (f : OsFile) : call (option error).

(** A method of the backend: a result, or a request and what to do with its
    answer. *)
Inductive prog (A : Type) : Type :=
| Ret (a : A)
| Vis (R : Type) (c : call R) (k : R -> prog A).

Arguments Ret {A} a.
Arguments Vis {A R} c k.

Fixpoint bind {A B : Type} (m : prog A) (f : A -> prog B) : prog B :=
  match m with
  | Ret a => f a
  | Vis c k => Vis c (fun r => bind (k r) f)
  end.

Definition request {R : Type} (c : call R) : prog R := Vis c Ret.

#[global] Instance prog_ret : MRet prog := @Ret.
#[global] Instance prog_bind : MBind prog := fun A B f m => bind m f.

(** [defer d] in a body that returns [a]: [d] runs after the result is
    fixed, and what [d] returns is dropped. *)
Definition defer {X A : Type} (d : prog X) (body : prog A) : prog A :=
  a ← body; _ ← d; mret a.

Definition Read (gcs : GCSStorage) (path : string)
  : prog (option StorageReader * option error) :=
  r ← request (NewReader (Object gcs path));
  match r with
  | inr err => mret (None, Some err)
  | inl reader => mret (Some reader, None)
  end.

Definition Write (gcs : GCSStorage) (path : string) (contents : bytes)
  : prog (option error) :=
  writer ← request (NewWriter (Object gcs path));
  defer (request (WriterClose writer))
    ('(_, err) ← request (WriterWrite writer contents);
     match err with
     | Some e => mret (Some e)
     | None => mret None
     end).

Definition Delete (gcs : GCSStorage) (path : string) : prog (option error) :=
  request (ObjDelete (Object gcs path)).

Definition Exists (gcs : GCSStorage) (path : string)
  : prog (bool * option error) :=
  r ← request (ObjAttrs (Object gcs path));
  match r with
  | inr err =>
      if decide (err = ErrObjectNotExist)
      then mret (false, None)
      else mret (false, Some err)
  | inl _ => mret (true, None)
  end.

Definition Copy (gcs : GCSStorage) (sourcePath destPath : string)
  : prog (option error) :=
  let src := Object gcs sourcePath in
  let dst := Object gcs destPath in
  r ← request (CopierRun dst src);
  match r with
  | inr err => mret (Some err)
  | inl _ => mret None
  end.

Definition Rename (gcs : GCSStorage) (oldPath newPath : string)
  : prog (option error) :=
  err ← Copy gcs oldPath newPath;
  match err with
  | Some e => mret (Some e)
  | None => Delete gcs oldPath
  end.

(** [fmt.Sprintf("https://storage.googleapis.com/%s/%s", b, p)]. *)
Definition GetUrl (gcs : GCSStorage) (path : string)
  : prog (string * option error) :=
  mret ("https://storage.googleapis.com/" +:+ BucketName gcs +:+ "/" +:+ path,
        None).

Definition Open (gcs : GCSStorage) (path : string)
  : prog (option OsFile * option error) :=
  r ← request (NewReader (Object gcs path));
  match r with
  | inr err => mret (None, Some err)
  | inl rc =>
      defer (request (ReaderClose rc))
        (t ← request (os_CreateTemp "" "gcs_temp_*");
         match t with
         | inr err => mret (None, Some err)
         | inl tempFile =>
             '(_, err) ← request (io_Copy_File tempFile rc);
             match err with
             | Some e => _ ← request (FileClose tempFile); mret (None, Some e)
             | None =>
                 '(_, err) ← request (FileSeek tempFile 0 0);
                 match err with
                 | Some e =>
                     _ ← request (FileClose tempFile); mret (None, Some e)
                 | None => mret (Some tempFile, None)
                 end
             end
         end)
  end.

Definition Upload (gcs : GCSStorage) (file : Stream) (header : FileHeader)
    (dir : string) : prog (option OsFile * option error) :=
  let objectPath := dir +:+ "/" +:+ Filename header in
  wc ← request (NewWriter (Object gcs objectPath));
  '(_, err) ← request (io_Copy_Writer wc file);
  match err with
  | Some e => mret (None, Some e)
  | None =>
      err ← request (WriterClose wc);
      match err with
      | Some e => mret (None, Some e)
      | None => Open gcs objectPath
      end
  end.

(** The marker object is [path + "/"]; the writer is closed at once, with
    nothing written. *)
Definition CreateDirectory (gcs : GCSStorage) (path : string)
  : prog (option error) :=
  let obj := Object gcs (path +:+ "/") in
  w ← request (NewWriter obj);
  err ← request (WriterClose w);
  match err with
  | Some e =>
      if Contains (Error e) "PreconditionFailed" then mret None
      else mret (Some e)
  | None => mret None
  end.

(** *** Running a method against a client *)

(** One request, as it appears in the log of a run. *)
Record event : Type := Ev { answer : Type; asked : call answer }.

Arguments Ev {answer} asked.

(** A client over states [W]: the answer to each request and the state it
    leaves. *)
Definition handler (W : Type) : Type := forall R : Type, call R -> W -> R * W.

(** The result of a method, the state it leaves, the requests it made in
    order. *)
Fixpoint run {W A : Type} (h : handler W) (m : prog A) (w : W)
  : A * W * list event :=
  match m with
  | Ret a => (a, w, [])
  | Vis c k =>
      let '(r, w1) := h _ c w in
      let '(a, w2, t) := run h (k r) w1 in
      (a, w2, Ev c :: t)
  end.

End GCS.


(** ** A reference client

    The storage service and the local temporary files, as the contract of
    the client library describes them, with failure injection: [faults] is
    the plan of the requests to come, one entry per request that can fail,
    [Some e] making that request fail with [e] and change nothing. A request
    that is let through fails on its own only when its object is absent;
    the error it then answers differs between the requests and between the
    versions of the library (the sentinel [storage.ErrObjectNotExist], an
    error wrapping it, a googleapi 404), so the world says which: [absent].
    The names are taken as they come: the library's refusal of a name is
    not part of the client, and a property that supposes requests to go
    through supposes the names [accepted]. *)

Module Service.

Import GCS.

(** The requests that look an object up. *)
Inductive lookup_by : Type := ByReader | ByAttrs | ByDelete | ByCopy.

Record world : Type := {
  objects : gmap (string * string) bytes;   (* (bucket, object) to content *)
  writers : list bytes;                     (* what each writer has buffered *)
  temps : list (bytes * nat);               (* temporary files: content, offset *)
  faults : list (option error);
  absent : lookup_by -> error               (* the answer for an absent object *)
}.

Definition key (o : ObjectHandle) : string * string := (bucket o, object o).

Definition with_objects (m : gmap (string * string) bytes) (w : world) : world :=
  {| objects := m; writers := writers w; temps := temps w; faults := faults w;
     absent := absent w |}.

Definition with_writers (l : list bytes) (w : world) : world :=
  {| objects := objects w; writers := l; temps := temps w; faults := faults w;
     absent := absent w |}.

Definition with_temps (l : list (bytes * nat)) (w : world) : world :=
  {| objects := objects w; writers := writers w; temps := l; faults := faults w;
     absent := absent w |}.

Definition with_faults (l : list (option error)) (w : world) : world :=
  {| objects := objects w; writers := writers w; temps := temps w; faults := l;
     absent := absent w |}.

(** The next entry of the plan; an exhausted plan lets every request through. *)
Definition plan (w : world) : option error * world :=
  match faults w with
  | [] => (None, w)
  | f :: rest => (f, with_faults rest w)
  end.

(** A request that can fail: [ko e] answers the injected failure. *)
Definition guarded {R : Type} (ko : error -> R) (ok : world -> R * world)
    (w : world) : R * world :=
  let '(f, w1) := plan w in
  match f with
  | Some e => (ko e, w1)
  | None => ok w1
  end.

Definition client : handler world := fun R c =>
  match c in call R return world -> R * world with
  | NewReader o =>
      guarded inr (fun w =>
        match objects w !! key o with
        | Some c => (inl {| body := c |}, w)
        | None => (inr (absent w ByReader), w)
        end)
  | ReaderClose _ => fun w => (None, w)
  | NewWriter o => fun w =>
      ({| wid := length (writers w); target := o |},
       with_writers (writers w ++ [[]]) w)
  | WriterWrite wr p =>
      guarded (fun e => (0, Some e)) (fun w =>
        ((length p, None),
         with_writers (alter (fun b => b ++ p) (wid wr) (writers w)) w))
  | WriterClose wr =>
      guarded Some (fun w =>
        (None,
         with_objects
           (<[key (target wr) := default [] (writers w !! wid wr)]> (objects w))
           w))
  | io_Copy_Writer wr src =>
      guarded (fun e => (0, Some e)) (fun w =>
        ((length (data src), rerr src),
         with_writers (alter (fun b => b ++ data src) (wid wr) (writers w)) w))
  | ObjDelete o =>
      guarded Some (fun w =>
        match objects w !! key o with
        | Some _ => (None, with_objects (delete (key o) (objects w)) w)
        | None => (Some (absent w ByDelete), w)
        end)
  | ObjAttrs o =>
      guarded inr (fun w =>
        match objects w !! key o with
        | Some c => (inl {| Size := length c |}, w)
        | None => (inr (absent w ByAttrs), w)
        end)
  | CopierRun dst src =>
      guarded inr (fun w =>
        match objects w !! key src with
        | Some c =>
            (inl {| Size := length c |},
             with_objects (<[key dst := c]> (objects w)) w)
        | None => (inr (absent w ByCopy), w)
        end)
  | os_CreateTemp _ _ =>
      guarded inr (fun w =>
        (inl {| fd := length (temps w) |}, with_temps (temps w ++ [([], 0)]) w))
  | io_Copy_File f rc =>
      guarded (fun e => (0, Some e)) (fun w =>
        ((length (body rc), None),
         with_temps
           (alter (fun t => (take (snd t) (fst t) ++ body rc,
                             snd t + length (body rc)))
              (fd f) (temps w)) w))
  | FileSeek f offset _ =>                  (* whence is io.SeekStart *)
      guarded (fun e => (0, Some e)) (fun w =>
        ((offset, None),
         with_temps (alter (fun t => (fst t, offset)) (fd f) (temps w)) w))
  | FileClose _ => fun w => (None, w)
  end.

(** What is stored at [path] of the bucket of [gcs]. *)
Definition stored (gcs : GCSStorage) (w : world) (path : string) : option bytes :=
  objects w !! key (Object gcs path).

(** A client that answers every absent object with the sentinel itself. *)
Definition sentinel (_ : lookup_by) : error := ErrObjectNotExist.

(** An empty bucket with a failure plan. *)
Definition fresh (plan : list (option error)) : world :=
  {| objects := ∅; writers := []; temps := []; faults := plan;
     absent := sentinel |}.

(** No failure is planned: every request is let through. *)
Definition quiet (w : world) : Prop := faults w = [].

(** A bucket "b" holding "hello" at "p", with a failure plan. *)
Definition bucket_b : GCSStorage := {| BucketName := "b" |}.

Definition one_object (plan : list (option error)) : world :=
  {| objects := {[ ("b", "p") := hello ]}; writers := []; temps := [];
     faults := plan; absent := sentinel |}.

End Service.


(** * Properties *)

(** ** Strings *)

Lemma string_length_app (a b : string) :
  String.length (a +:+ b) = String.length a + String.length b.
Proof. induction a as [|ch a IH]; simpl; [reflexivity | now rewrite IH]. Qed.

Lemma substring_all (t : string) : String.substring 0 (String.length t) t = t.
Proof. induction t as [|ch t IH]; simpl; [reflexivity | now rewrite IH]. Qed.

Lemma substring_skip (q t : string) :
  String.substring (String.length q) (String.length t) (q +:+ t) = t.
Proof. induction q as [|ch q IH]; simpl; [apply substring_all | exact IH]. Qed.

Lemma substring_split (s : string) (n : nat) :
  n <= String.length s ->
  s = String.substring 0 n s +:+ String.substring n (String.length s - n) s.
Proof.
  revert n. induction s as [|ch s IH]; intros [|n] Hn; simpl in *; try lia.
  - reflexivity.
  - now rewrite substring_all.
  - transitivity
      (String ch
         (String.substring 0 n s +:+ String.substring n (String.length s - n) s));
      [f_equal; apply IH; lia | reflexivity].
Qed.

(** [strings.HasSuffix] decides [ends_with]. *)
Lemma HasSuffix_spec (s suffix : string) :
  HasSuffix s suffix = true <-> ends_with s suffix.
Proof.
  unfold HasSuffix, ends_with. rewrite andb_true_iff, Nat.leb_le, String.eqb_eq.
  split.
  - intros [Hlen Hsub].
    exists (String.substring 0 (String.length s - String.length suffix) s).
    pose proof (substring_split s (String.length s - String.length suffix)) as H.
    replace (String.length s - (String.length s - String.length suffix))
      with (String.length suffix) in H by lia.
    rewrite Hsub in H. apply H. lia.
  - intros [q ->]. rewrite string_length_app. split; [lia|].
    replace (String.length q + String.length suffix - String.length suffix)
      with (String.length q) by lia.
    apply substring_skip.
Qed.

Lemma HasSuffix_false (s suffix : string) :
  HasSuffix s suffix = false <-> ~ ends_with s suffix.
Proof.
  rewrite <- HasSuffix_spec. destruct (HasSuffix s suffix); split; congruence.
Qed.


(** ** The memory backend *)

Section MemoryFacts.

Import Memory.

Variable filepath_Join : string -> string -> string.

(** *** The heap only grows *)

Lemma alloc_lookup (c : bytes) (h : list bytes) (a : addr) (x : bytes) :
  h !! a = Some x -> snd (alloc c h) !! a = Some x.
Proof. intros H. simpl. now apply lookup_app_l_Some. Qed.

Lemma alloc_fresh (c : bytes) (h : list bytes) :
  snd (alloc c h) !! fst (alloc c h) = Some c.
Proof. simpl. now rewrite list_lookup_middle. Qed.

Lemma step_heap (o : op) (fs : state) (a : addr) (x : bytes) :
  heap fs !! a = Some x -> heap (step filepath_Join o fs) !! a = Some x.
Proof.
  intros H. destruct o; simpl; try exact H.
  - now apply lookup_app_l_Some.
  - unfold Delete. destruct (files fs !! path); exact H.
  - unfold Rename. destruct (files fs !! oldPath); exact H.
  - unfold Copy. destruct (files fs !! sourcePath); exact H.
  - unfold CreateDirectory. destruct (negb _); exact H.
  - unfold Upload. simpl. destruct (rerr file); simpl; now apply lookup_app_l_Some.
Qed.

(** *** Well-formedness is an invariant of the interface *)

Lemma wf_NewMemoryStorage : wf NewMemoryStorage.
Proof. apply map_Forall_empty. Qed.

Lemma wf_grow (fs : state) (c : bytes) (m : gmap string File) :
  map_Forall (fun _ f => buf (Content f) < length (heap fs)) m ->
  map_Forall (fun _ f => buf (Content f) < length (heap fs ++ [c])) m.
Proof.
  intros H. eapply map_Forall_impl; [exact H|].
  intros k f Hf. simpl in *. rewrite length_app. simpl. lia.
Qed.

Lemma wf_step (o : op) (fs : state) : wf fs -> wf (step filepath_Join o fs).
Proof.
  unfold wf. intros Hwf. destruct o; simpl; try exact Hwf.
  - apply map_Forall_insert_2; [simpl; rewrite length_app; simpl; lia|].
    now apply wf_grow.
  - unfold Delete. destruct (files fs !! path); simpl; [|exact Hwf].
    now apply map_Forall_delete.
  - unfold Rename. destruct (files fs !! oldPath) as [file|] eqn:E; simpl;
      [|exact Hwf].
    apply map_Forall_delete, map_Forall_insert_2; [|exact Hwf].
    exact (Hwf _ _ E).
  - unfold Copy. destruct (files fs !! sourcePath) as [file|] eqn:E; simpl;
      [|exact Hwf].
    apply map_Forall_insert_2; [|exact Hwf]. exact (Hwf _ _ E).
  - unfold CreateDirectory. destruct (negb _); exact Hwf.
  - unfold Upload. simpl. destruct (rerr file); simpl.
    + now apply wf_grow.
    + apply map_Forall_insert_2; [simpl; rewrite length_app; simpl; lia|].
      now apply wf_grow.
Qed.

Lemma wf_exec (ops : list op) (fs : state) :
  wf fs -> wf (exec filepath_Join ops fs).
Proof.
  revert fs. induction ops as [|o ops IH]; intros fs Hwf; simpl; [exact Hwf|].
  apply IH, wf_step, Hwf.
Qed.

(** *** What a call leaves alone *)

Lemma holds_contents (fs : state) (path : string) (f : File) (c : bytes) :
  holds fs path f c ->
  Read path fs = (Some (NewReader (buf (Content f))), None)
  /\ ReadAll (heap fs) (NewReader (buf (Content f))) = Some c.
Proof.
  intros [Hf Hc]. unfold Read, ReadAll. rewrite Hf. simpl. now rewrite Hc.
Qed.

Lemma step_holds (p : string) (o : op) (fs : state) (f : File) (c : bytes) :
  affects filepath_Join p o = false ->
  holds fs p f c -> holds (step filepath_Join o fs) p f c.
Proof.
  intros Ha [Hf Hc]. split; [|now apply step_heap].
  destruct o; simpl in *; try exact Hf.
  - apply bool_decide_eq_false in Ha. now rewrite lookup_insert_ne.
  - apply bool_decide_eq_false in Ha. unfold Delete.
    destruct (files fs !! path); simpl; [|exact Hf]. now rewrite lookup_delete_ne.
  - apply orb_false_iff in Ha as [Ha Hb].
    apply bool_decide_eq_false in Ha. apply bool_decide_eq_false in Hb.
    unfold Rename. destruct (files fs !! oldPath); simpl; [|exact Hf].
    now rewrite lookup_delete_ne, lookup_insert_ne.
  - apply bool_decide_eq_false in Ha. unfold Copy.
    destruct (files fs !! sourcePath); simpl; [|exact Hf].
    now rewrite lookup_insert_ne.
  - unfold CreateDirectory. destruct (negb _); exact Hf.
  - apply bool_decide_eq_false in Ha. unfold Upload. simpl.
    destruct (rerr file); simpl; [exact Hf|]. now rewrite lookup_insert_ne.
Qed.

(** A call that fails stores nothing and removes nothing. *)
Lemma failed_step_holds (p : string) (o : op) (fs : state) (f : File) (c : bytes) :
  err_of filepath_Join o fs <> None ->
  holds fs p f c -> holds (step filepath_Join o fs) p f c.
Proof.
  intros He [Hf Hc]. split; [|now apply step_heap].
  destruct o; simpl in *; try exact Hf; try (now contradiction He).
  - unfold Delete in *. destruct (files fs !! path); simpl in *;
      [now contradiction He | exact Hf].
  - unfold Rename in *. destruct (files fs !! oldPath); simpl in *;
      [now contradiction He | exact Hf].
  - unfold Copy in *. destruct (files fs !! sourcePath); simpl in *;
      [now contradiction He | exact Hf].
  - unfold CreateDirectory. destruct (negb _); exact Hf.
  - unfold Upload in *. simpl in *. destruct (rerr file); simpl in *;
      [exact Hf | now contradiction He].
Qed.

Lemma act_holds (p : string) (x : action) (fs : state) (f : File) (c : bytes) :
  disturbs filepath_Join p (buf (Content f)) x fs = false ->
  holds fs p f c -> holds (act filepath_Join x fs) p f c.
Proof.
  intros Hd H. destruct x as [o | s' k b]; simpl in *.
  - apply andb_false_iff in Hd as [Ha | He].
    + now apply step_holds.
    + apply bool_decide_eq_false in He. now apply failed_step_holds.
  - apply bool_decide_eq_false in Hd. destruct H as [Hf Hc].
    split; [exact Hf|]. simpl. now rewrite list_lookup_alter_ne.
Qed.

Lemma perform_holds (p : string) (xs : list action) (fs : state) (f : File)
    (c : bytes) :
  undisturbed filepath_Join p (buf (Content f)) xs fs = true ->
  holds fs p f c -> holds (perform filepath_Join xs fs) p f c.
Proof.
  revert fs. induction xs as [|x xs IH]; intros fs Hall H; simpl in *;
    [exact H|].
  apply andb_true_iff in Hall as [Hx Hall].
  apply IH; [exact Hall|]. apply act_holds; [|exact H].
  now apply negb_true_iff.
Qed.

Lemma Write_holds (p : string) (c : bytes) (fs : state) :
  holds (snd (Write p c fs)) p
    {| Name := p; Content := NewBuffer (length (heap fs)) |} c.
Proof.
  split; simpl; [now rewrite lookup_insert_eq | now rewrite list_lookup_middle].
Qed.

(** C1, amended. On the memory backend, [Write(p, c)] succeeds, and
    [Read(p)] after it gives a reader placed at the start whose whole
    contents are [c] (the empty [c] included), whatever happens in between,
    as long as no successful call stores to [p] or removes it (a write or
    an upload to [p], a delete of [p], a rename from or to [p], a copy to
    [p]) and the caller does not assign through the slice it gave to
    [Write]. *)
Theorem Write_then_Read (p : string) (c : bytes) (fs : state)
    (xs : list action) :
  undisturbed filepath_Join p (fst (alloc c (heap fs))) xs (snd (Write p c fs))
    = true ->
  fst (Write p c fs) = None
  /\ exists r : Reader,
       let fs' := perform filepath_Join xs (snd (Write p c fs)) in
       Read p fs' = (Some r, None) /\ i r = 0 /\ ReadAll (heap fs') r = Some c.
Proof.
  intros Hxs. split; [reflexivity|].
  pose proof (perform_holds p xs (snd (Write p c fs))
                {| Name := p; Content := NewBuffer (length (heap fs)) |} c
                Hxs (Write_holds p c fs)) as H.
  apply holds_contents in H as [Hr Hc].
  eexists. cbv zeta. split; [exact Hr|]. split; [reflexivity | exact Hc].
Qed.

End MemoryFacts.

Section MemoryCalls.

Import Memory.

Lemma Exists_true (p : string) (fs : state) :
  fst (Exists p fs) = true <-> is_Some (files fs !! p).
Proof. simpl. apply bool_decide_eq_true. Qed.

Lemma Exists_false (p : string) (fs : state) :
  fst (Exists p fs) = false <-> files fs !! p = None.
Proof. simpl. rewrite bool_decide_eq_false. symmetry. apply eq_None_not_Some. Qed.

Lemma Exists_absent (p : string) (fs : state) :
  files fs !! p = None -> Exists p fs = (false, None).
Proof.
  intros H. unfold Exists. f_equal. apply bool_decide_eq_false.
  rewrite H. apply is_Some_None.
Qed.

Lemma Exists_present (p : string) (fs : state) (f : File) :
  files fs !! p = Some f -> Exists p fs = (true, None).
Proof.
  intros H. unfold Exists. f_equal. apply bool_decide_eq_true. now exists f.
Qed.

Lemma contents_present (p : string) (fs : state) (f : File) :
  files fs !! p = Some f -> contents fs p = heap fs !! buf (Content f).
Proof.
  intros H. unfold contents, Read, ReadAll, NewReader, Bytes. rewrite H. simpl.
  now destruct (heap fs !! buf (Content f)).
Qed.

Lemma contents_absent (p : string) (fs : state) :
  files fs !! p = None -> contents fs p = None.
Proof. intros H. unfold contents, Read. now rewrite H. Qed.

Lemma wf_contents (p : string) (fs : state) (f : File) :
  wf fs -> files fs !! p = Some f -> is_Some (contents fs p).
Proof.
  intros Hwf H. rewrite (contents_present _ _ _ H).
  apply lookup_lt_is_Some. exact (Hwf _ _ H).
Qed.

(** C4, amended. On the memory backend, for all paths [a] and [b]:
    [Rename(a, b)] fails with the not-found error exactly when [a] is absent
    and succeeds otherwise; after a success [Exists(a)] is false; and when
    [a] and [b] are distinct, [Read(b)] after a success gives the reader,
    hence the contents, [Read(a)] gave just before. *)
Theorem Rename_moves (a b : string) (fs : state) :
  (fst (Rename a b fs) = Some ErrNotExist <-> fst (Exists a fs) = false)
  /\ (fst (Rename a b fs) = None <-> fst (Exists a fs) = true)
  /\ (fst (Rename a b fs) = None ->
      let fs' := snd (Rename a b fs) in
      Exists a fs' = (false, None)
      /\ (a <> b ->
          (exists r : Reader,
             Read a fs = (Some r, None) /\ Read b fs' = (Some r, None))
          /\ contents fs' b = contents fs a)).
Proof.
  rewrite Exists_false, Exists_true. unfold Rename.
  destruct (files fs !! a) as [file|] eqn:Ha; simpl.
  - split; [split; congruence|]. split; [split; eauto|]. intros _.
    split; [apply Exists_absent; simpl; apply lookup_delete_eq|].
    intros Hab.
    assert (Hb : delete a (<[b:=file]> (files fs)) !! b = Some file)
      by now rewrite lookup_delete_ne, lookup_insert_eq.
    split.
    + exists (NewReader (Bytes (Content file))). unfold Read. simpl.
      now rewrite Ha, Hb.
    + rewrite (contents_present b _ file) by exact Hb.
      now rewrite (contents_present a fs file) by exact Ha.
  - split; [split; congruence|]. split; [|congruence].
    split; [congruence | intros [f Hf]; congruence].
Qed.

(** C10. On the memory backend, [Rename(p, p)] on a stored [p] returns nil
    and removes the object: its entry is gone from the map, [Exists(p)] is
    false and [Read(p)] fails with the not-found error. *)
Theorem Rename_same_path_removes (p : string) (fs : state) :
  fst (Exists p fs) = true ->
  fst (Rename p p fs) = None
  /\ files (snd (Rename p p fs)) = delete p (files fs)
  /\ Exists p (snd (Rename p p fs)) = (false, None)
  /\ Read p (snd (Rename p p fs)) = (None, Some ErrNotExist).
Proof.
  rewrite Exists_true. intros [file Hp]. unfold Rename. rewrite Hp. simpl.
  split; [reflexivity|]. split; [apply delete_insert_eq|].
  split; [apply Exists_absent; simpl; apply lookup_delete_eq|].
  unfold Read. simpl. now rewrite lookup_delete_eq.
Qed.

(** C5. On the memory backend, for distinct paths [a] and [b] of a
    well-formed store: [Copy(a, b)] fails with the not-found error exactly
    when [a] is absent and succeeds otherwise; after a success [a] is still
    there, [Read(a)] and [Read(b)] give the same bytes, those of [a] before,
    and a later [Write(b, c')] makes [Read(b)] give [c'] and leaves what
    [Read(a)] gives as it was. *)
Theorem Copy_duplicates (a b : string) (c' : bytes) (fs : state) :
  wf fs -> a <> b ->
  (fst (Copy a b fs) = Some ErrNotExist <-> fst (Exists a fs) = false)
  /\ (fst (Copy a b fs) = None <-> fst (Exists a fs) = true)
  /\ (fst (Copy a b fs) = None ->
      let fs1 := snd (Copy a b fs) in
      let fs2 := snd (Write b c' fs1) in
      exists ca : bytes,
        contents fs a = Some ca
        /\ Exists a fs1 = (true, None)
        /\ contents fs1 a = Some ca /\ contents fs1 b = Some ca
        /\ fst (Write b c' fs1) = None
        /\ contents fs2 b = Some c' /\ contents fs2 a = Some ca).
Proof.
  intros Hwf Hab. rewrite Exists_false, Exists_true. unfold Copy.
  destruct (files fs !! a) as [src|] eqn:Ha; simpl.
  - split; [split; congruence|]. split; [split; eauto|]. intros _.
    destruct (wf_contents a fs src Hwf Ha) as [ca Hca]. exists ca.
    pose proof Hca as Hheap. rewrite (contents_present a fs src Ha) in Hheap.
    set (dst := {| Name := b; Content := NewBuffer (Bytes (Content src)) |}).
    set (fs1 := {| files := <[b:=dst]> (files fs); heap := heap fs |}).
    assert (Ha1 : files fs1 !! a = Some src)
      by (simpl; now rewrite lookup_insert_ne).
    assert (Hb1 : files fs1 !! b = Some dst) by (simpl; apply lookup_insert_eq).
    split; [exact Hca|]. split; [exact (Exists_present a fs1 src Ha1)|].
    split; [now rewrite (contents_present a fs1 src Ha1)|].
    split; [now rewrite (contents_present b fs1 dst Hb1)|].
    split; [reflexivity|]. split.
    + erewrite contents_present by (simpl; apply lookup_insert_eq).
      simpl. now rewrite list_lookup_middle.
    + erewrite contents_present
        by (simpl; rewrite lookup_insert_ne by congruence; exact Ha1).
      simpl. now apply lookup_app_l_Some.
  - split; [split; congruence|]. split; [|congruence].
    split; [congruence | intros [f Hf]; congruence].
Qed.

(** C7. On the memory backend, [Delete(p)] of an absent [p] returns the
    not-found error and leaves the store as it was; [Delete(p)] of a stored
    [p] returns nil, and [Exists(p)] is false after it. *)
Theorem Delete_removes (p : string) (fs : state) :
  (fst (Exists p fs) = false -> Delete p fs = (Some ErrNotExist, fs))
  /\ (fst (Exists p fs) = true ->
      fst (Delete p fs) = None /\ Exists p (snd (Delete p fs)) = (false, None)).
Proof.
  rewrite Exists_false, Exists_true. unfold Delete. split.
  - intros H. now rewrite H.
  - intros [f Hf]. rewrite Hf. simpl. split; [reflexivity|].
    apply Exists_absent. simpl. apply lookup_delete_eq.
Qed.

(** C8. On the memory backend, [CreateDirectory(path)] returns its
    validation error exactly when [path] does not end with the separator,
    returns nil exactly when it does, and leaves the store as it was either
    way. *)
Theorem CreateDirectory_validates (path : string) (fs : state) :
  (fst (CreateDirectory path fs)
     = Some (errors_New "directory path must end with '/'")
   <-> ~ ends_with path "/")
  /\ (fst (CreateDirectory path fs) = None <-> ends_with path "/")
  /\ snd (CreateDirectory path fs) = fs.
Proof.
  unfold CreateDirectory. rewrite <- HasSuffix_false, <- HasSuffix_spec.
  destruct (HasSuffix path "/"); simpl;
    (split; [split; congruence|]); (split; [split; congruence | reflexivity]).
Qed.

End MemoryCalls.


(** ** The Google Cloud Storage backend *)

Section GCSFacts.

Import GCS.

(** *** For every client *)

Lemma run_bind {W A B : Type} (h : handler W) (m : prog A) (f : A -> prog B)
    (w : W) :
  run h (bind m f) w =
    let '(a, w1, t1) := run h m w in
    let '(b, w2, t2) := run h (f a) w1 in
    (b, w2, t1 ++ t2).
Proof.
  revert w. induction m as [a | R c k IH]; intros w; simpl.
  - now destruct (run h (f a) w) as [[b w2] t2].
  - destruct (h R c w) as [r w1]. rewrite IH.
    destruct (run h (k r) w1) as [[a w2] t1].
    now destruct (run h (f a) w2) as [[b w3] t2].
Qed.

(** C9. On the GCS backend, [GetUrl(path)] is, for every path,
    "https://storage.googleapis.com/" followed by the bucket name, "/" and
    the path, with a nil error; run against any client in any state it makes
    no request (no existence check) and leaves the state as it was. *)
Theorem GetUrl_formats (gcs : GCSStorage) (path : string) :
  GetUrl gcs path
    = Ret ("https://storage.googleapis.com/" +:+ BucketName gcs +:+ "/" +:+ path,
           None)
  /\ forall (W : Type) (h : handler W) (w : W),
       run h (GetUrl gcs path) w
       = (("https://storage.googleapis.com/" +:+ BucketName gcs +:+ "/" +:+ path,
           None), w, []).
Proof. split; reflexivity. Qed.

(** What [Write] returns is what [writer.Write] returned: the answer of the
    deferred [Close] does not reach the caller. *)
Lemma Write_run {W : Type} (h : handler W) (gcs : GCSStorage) (path : string)
    (contents : bytes) (w : W) :
  run h (Write gcs path contents) w =
    let '(writer, w1) := h _ (NewWriter (Object gcs path)) w in
    let '((_, err), w2) := h _ (WriterWrite writer contents) w1 in
    let '(_, w3) := h _ (WriterClose writer) w2 in
    (err, w3,
     [Ev (NewWriter (Object gcs path)); Ev (WriterWrite writer contents);
      Ev (WriterClose writer)]).
Proof.
  unfold Write, defer. simpl.
  destruct (h _ (NewWriter (Object gcs path)) w) as [writer w1]. simpl.
  destruct (h _ (WriterWrite writer contents) w1) as [[n err] w2].
  destruct err as [e|]; simpl;
    now destruct (h _ (WriterClose writer) w2) as [cerr w3].
Qed.

Lemma Rename_run {W : Type} (h : handler W) (gcs : GCSStorage)
    (oldPath newPath : string) (w : W) :
  run h (Rename gcs oldPath newPath) w =
    let copy := CopierRun (Object gcs newPath) (Object gcs oldPath) in
    let del := ObjDelete (Object gcs oldPath) in
    match h _ copy w with
    | (inr e, w1) => (Some e, w1, [Ev copy])
    | (inl _, w1) => let '(r, w2) := h _ del w1 in (r, w2, [Ev copy; Ev del])
    end.
Proof.
  unfold Rename, Copy, Delete. simpl.
  destruct (h _ (CopierRun (Object gcs newPath) (Object gcs oldPath)) w)
    as [[a|e] w1]; simpl; [|reflexivity].
  now destruct (h _ (ObjDelete (Object gcs oldPath)) w1) as [r w2].
Qed.

Lemma Exists_run {W : Type} (h : handler W) (gcs : GCSStorage) (path : string)
    (w : W) :
  run h (Exists gcs path) w =
    match h _ (ObjAttrs (Object gcs path)) w with
    | (inl _, w1) => ((true, None), w1, [Ev (ObjAttrs (Object gcs path))])
    | (inr err, w1) =>
        ((false, if decide (err = ErrObjectNotExist) then None else Some err),
         w1, [Ev (ObjAttrs (Object gcs path))])
    end.
Proof.
  unfold Exists. simpl.
  destruct (h _ (ObjAttrs (Object gcs path)) w) as [[a|e] w1]; simpl;
    [reflexivity|].
  now destruct (decide (e = ErrObjectNotExist)).
Qed.

Lemma Upload_run {W : Type} (h : handler W) (gcs : GCSStorage) (file : Stream)
    (header : FileHeader) (dir : string) (w : W) :
  run h (Upload gcs file header dir) w =
    let objectPath := dir +:+ "/" +:+ Filename header in
    let '(wc, w1) := h _ (NewWriter (Object gcs objectPath)) w in
    let put := [Ev (NewWriter (Object gcs objectPath)); Ev (io_Copy_Writer wc file)] in
    match h _ (io_Copy_Writer wc file) w1 with
    | ((_, Some e), w2) => ((None, Some e), w2, put)
    | ((_, None), w2) =>
        match h _ (WriterClose wc) w2 with
        | (Some e, w3) => ((None, Some e), w3, put ++ [Ev (WriterClose wc)])
        | (None, w3) =>
            let '(r, w4, t) := run h (Open gcs objectPath) w3 in
            (r, w4, put ++ Ev (WriterClose wc) :: t)
        end
    end.
Proof.
  unfold Upload. cbv zeta. cbn [run mbind prog_bind bind request].
  destruct (h _ (NewWriter _) w) as [wc w1].
  cbn [run mbind prog_bind bind request].
  destruct (h _ (io_Copy_Writer wc file) w1) as [[n [e|]] w2];
    cbn [run mret prog_ret]; [reflexivity|].
  destruct (h _ (WriterClose wc) w2) as [[e|] w3];
    cbn [run mret prog_ret]; [reflexivity|].
  now destruct (run h (Open gcs _) w3) as [[r w4] t].
Qed.

End GCSFacts.


(** ** The GCS backend against the reference client *)

Section ServiceFacts.

Import GCS Service.

(** Consulting the plan changes nothing but the plan. *)
Lemma plan_frame (w w1 : world) (f : option error) :
  plan w = (f, w1) ->
  objects w1 = objects w /\ writers w1 = writers w /\ temps w1 = temps w.
Proof.
  unfold plan. destruct (faults w); intros [= <- <-]; simpl; auto.
Qed.

Lemma plan_none (w : world) : plan (with_faults [] w) = (None, with_faults [] w).
Proof. reflexivity. Qed.

(** Destructs the next consultation of the plan in [H]: [w1] is the state
    after it, [Hf] says it differs from the state before by the plan only,
    and the first goal is the one where the request is made to fail. *)
Ltac next_fault H w1 Hf :=
  let f := fresh "f" in
  unfold guarded in H;
  match type of H with
  | context [plan ?x] =>
      destruct (plan x) as [f w1] eqn:Hf;
      apply plan_frame in Hf;
      destruct f; simpl in H
  end.

(** A run is a triple whose log holds types: its components are compared
    one at a time. *)
Ltac trace_clash H :=
  apply (f_equal (fun x => length (snd x))) in H; simpl in H; discriminate H.

Ltac error_clash H :=
  apply (f_equal (fun x => snd (fst (fst x)))) in H; simpl in H; discriminate H.

Ltac result_of H Hr Hs :=
  pose proof (f_equal (fun x => fst (fst x)) H) as Hr;
  pose proof (f_equal (fun x => snd (fst x)) H) as Hs;
  simpl in Hr, Hs; clear H.

Lemma stored_probe (gcs : GCSStorage) (w : world) (path : string) (c : bytes) :
  stored gcs w path = Some c ->
  fst (fst (run client (Exists gcs path) (with_faults [] w))) = (true, None).
Proof.
  intros H. rewrite Exists_run. unfold stored in H. simpl.
  unfold guarded. rewrite plan_none. simpl. now rewrite H.
Qed.

(** C6. On the GCS backend, against every client, [Rename(old, new)] asks
    for the copy of [old] to [new] first; if the copy fails, that error is
    returned and nothing else is asked (no delete); if it succeeds, the
    delete of [old] is asked next and its answer, an error included, is what
    [Rename] returns. Against the reference client, when the delete fails
    after the copy succeeded the object is stored at both paths, and
    [Exists] reports true for both. *)
Theorem Rename_copy_then_delete (gcs : GCSStorage) (oldPath newPath : string) :
  let copy := CopierRun (Object gcs newPath) (Object gcs oldPath) in
  let del := ObjDelete (Object gcs oldPath) in
  (forall (W : Type) (h : handler W) (w : W),
     run h (Rename gcs oldPath newPath) w =
       match h _ copy w with
       | (inr e, w1) => (Some e, w1, [Ev copy])
       | (inl _, w1) => let '(r, w2) := h _ del w1 in (r, w2, [Ev copy; Ev del])
       end)
  /\ (forall (w w' : world) (e : error),
        run client (Rename gcs oldPath newPath) w = (Some e, w', [Ev copy; Ev del]) ->
        exists c : bytes,
          stored gcs w oldPath = Some c
          /\ stored gcs w' oldPath = Some c /\ stored gcs w' newPath = Some c
          /\ fst (fst (run client (Exists gcs oldPath) (with_faults [] w')))
             = (true, None)
          /\ fst (fst (run client (Exists gcs newPath) (with_faults [] w')))
             = (true, None)).
Proof.
  cbv zeta. split; [intros; apply Rename_run|].
  intros w w' e H. rewrite Rename_run in H. cbv zeta in H. simpl in H.
  next_fault H w1 Hf1; [trace_clash H|].
  destruct Hf1 as (Ho1 & _ & _).
  destruct (objects w1 !! key (Object gcs oldPath)) as [c|] eqn:Hold;
    [|trace_clash H].
  next_fault H w2 Hf2.
  - result_of H Hr Hs. subst w'. destruct Hf2 as (Ho2 & _ & _). exists c.
    assert (Hs1 : stored gcs w oldPath = Some c)
      by (unfold stored; now rewrite <- Ho1).
    assert (Hs2 : stored gcs w2 oldPath = Some c).
    { unfold stored. rewrite Ho2. simpl.
      destruct (decide (key (Object gcs newPath) = key (Object gcs oldPath)))
        as [->|Hne]; [apply lookup_insert_eq|].
      now rewrite lookup_insert_ne. }
    assert (Hs3 : stored gcs w2 newPath = Some c).
    { unfold stored. rewrite Ho2. simpl. apply lookup_insert_eq. }
    split; [exact Hs1|]. split; [exact Hs2|]. split; [exact Hs3|].
    split; eapply stored_probe; eassumption.
  - destruct Hf2 as (Ho2 & _ & _). simpl in Ho2.
    assert (Hin : is_Some (objects w2 !! key (Object gcs oldPath))).
    { rewrite Ho2.
      destruct (decide (key (Object gcs newPath) = key (Object gcs oldPath)))
        as [->|Hne]; [rewrite lookup_insert_eq | rewrite lookup_insert_ne by done];
        eauto. }
    destruct Hin as [c2 Hc2]. rewrite Hc2 in H.
    result_of H Hr Hs. discriminate Hr.
Qed.

(** C3, the failing run. Against every client, [Write] returns what
    [writer.Write] returned and drops the answer of [Close]. Against the
    reference client, when [writer.Write] passes and [Close] fails, [Write]
    returns nil although nothing was stored. *)
Theorem Write_drops_Close_error (gcs : GCSStorage) (path : string)
    (contents : bytes) (e : error) :
  (forall (W : Type) (h : handler W) (w : W),
     fst (fst (run h (Write gcs path contents) w))
     = snd (fst (h _ (WriterWrite
                        (fst (h _ (NewWriter (Object gcs path)) w)) contents)
                   (snd (h _ (NewWriter (Object gcs path)) w)))))
  /\ (let '(r, w', _) :=
        run client (Write gcs path contents) (fresh [None; Some e]) in
      r = None /\ stored gcs w' path = None).
Proof.
  split.
  - intros W h w. rewrite Write_run.
    destruct (h _ (NewWriter (Object gcs path)) w) as [writer w1]. simpl.
    destruct (h _ (WriterWrite writer contents) w1) as [[n err] w2]. simpl.
    now destruct (h _ (WriterClose writer) w2).
  - simpl. split; reflexivity.
Qed.

(** A successful [Open] against the reference client: the handle is a new
    temporary file holding what is stored at [path], rewound to the start;
    the bucket is as it was. *)
Lemma Open_client (gcs : GCSStorage) (path : string) (w w' : world)
    (handle : option OsFile) (t : list event) :
  run client (Open gcs path) w = ((handle, None), w', t) ->
  exists (f : OsFile) (c : bytes),
    handle = Some f /\ stored gcs w path = Some c
    /\ objects w' = objects w /\ temps w' !! fd f = Some (c, 0).
Proof.
  intros H. unfold Open, defer in H. simpl in H.
  next_fault H w1 Hf1; [error_clash H|]. destruct Hf1 as (Ho1 & _ & Ht1).
  destruct (objects w1 !! key (Object gcs path)) as [c|] eqn:Hc; simpl in H;
    [|error_clash H].
  next_fault H w2 Hf2; [error_clash H|]. destruct Hf2 as (Ho2 & _ & Ht2).
  next_fault H w3 Hf3; [error_clash H|]. destruct Hf3 as (Ho3 & _ & Ht3).
  next_fault H w4 Hf4; [error_clash H|]. destruct Hf4 as (Ho4 & _ & Ht4).
  result_of H Hr Hs. subst w'. simpl in *.
  exists {| fd := length (temps w2) |}, c.
  split; [congruence|]. split; [unfold stored; now rewrite <- Ho1|].
  split; [congruence|].
  rewrite list_lookup_alter_eq, Ht4. simpl.
  rewrite list_lookup_alter_eq, Ht3. simpl.
  now rewrite list_lookup_middle.
Qed.

(** C2, amended. A successful [Upload(stream, header, dir)]
    - on the memory backend stores the bytes of the stream at
      [filepath.Join(dir, name)] and returns a nil handle with a nil error;
    - on the GCS backend, against every client, returns after the put of
      the stream to the object [dir/name] exactly what [Open] of that path
      returns in the state the put left;
    - on the GCS backend, against the reference client, stores the bytes of
      the stream at [dir/name] and returns a non-nil handle: a temporary
      file holding those bytes, rewound to the start. *)
Theorem Upload_stores (file : Stream) (header : FileHeader) (dir : string) :
  (forall (filepath_Join : string -> string -> string) (fs : Memory.state),
     snd (fst (Memory.Upload filepath_Join file header dir fs)) = None ->
     fst (Memory.Upload filepath_Join file header dir fs) = (None, None)
     /\ Memory.contents (snd (Memory.Upload filepath_Join file header dir fs))
          (filepath_Join dir (Filename header))
        = Some (data file))
  /\ (forall (gcs : GCSStorage) (W : Type) (h : handler W) (w w' : W)
             (handle : option OsFile) (t : list event),
        run h (Upload gcs file header dir) w = ((handle, None), w', t) ->
        let o := Object gcs (dir +:+ "/" +:+ Filename header) in
        let wc := fst (h _ (NewWriter o) w) in
        exists (w3 : W) (opened : list event),
          t = [Ev (NewWriter o); Ev (io_Copy_Writer wc file); Ev (WriterClose wc)]
              ++ opened
          /\ run h (Open gcs (dir +:+ "/" +:+ Filename header)) w3
             = ((handle, None), w', opened))
  /\ (forall (gcs : GCSStorage) (w w' : world) (handle : option OsFile)
             (t : list event),
        run client (Upload gcs file header dir) w = ((handle, None), w', t) ->
        stored gcs w' (dir +:+ "/" +:+ Filename header) = Some (data file)
        /\ exists f : OsFile,
             handle = Some f /\ temps w' !! fd f = Some (data file, 0)).
Proof.
  split; [|split].
  - intros filepath_Join fs. unfold Memory.Upload. simpl.
    destruct (rerr file) as [e|]; simpl; [discriminate|]. intros _.
    split; [reflexivity|].
    erewrite contents_present by (simpl; apply lookup_insert_eq).
    simpl. now rewrite list_lookup_middle.
  - intros gcs W h w w' handle t H. rewrite Upload_run in H. cbv zeta in *.
    destruct (h _ (NewWriter _) w) as [wc w1]. cbn [fst].
    destruct (h _ (io_Copy_Writer wc file) w1) as [[n [e|]] w2];
      [error_clash H|].
    destruct (h _ (WriterClose wc) w2) as [[e|] w3]; [error_clash H|].
    destruct (run h (Open gcs _) w3) as [[r w4] opened] eqn:HO.
    exists w3, opened.
    pose proof (f_equal snd H) as Ht. result_of H Hr Hs. simpl in Ht.
    subst r w4. split; [symmetry; exact Ht | exact HO].
  - intros gcs w w' handle t H. rewrite Upload_run in H. cbv zeta in H.
    set (open := run client (Open gcs (dir +:+ "/" +:+ Filename header))) in H.
    simpl in H. next_fault H w1 Hf1; [error_clash H|].
    destruct Hf1 as (Ho1 & Hw1 & _). simpl in Hw1.
    destruct (rerr file) as [e|]; [error_clash H|].
    next_fault H w2 Hf2; [error_clash H|].
    destruct Hf2 as (Ho2 & Hw2 & _). simpl in Ho2, Hw2.
    match type of H with
    | context [open ?x] => destruct (open x) as [[r w4] opened] eqn:HO
    end.
    result_of H Hr Hs. subst r w4 open.
    apply Open_client in HO as (f & c & -> & Hc & Hobj & Htmp).
    unfold stored in *. simpl in Hc. rewrite lookup_insert_eq in Hc.
    rewrite Hw2, list_lookup_alter_eq, Hw1, list_lookup_middle in Hc by done.
    simpl in Hc. injection Hc as <-.
    split; [|now exists f].
    rewrite Hobj. simpl. rewrite lookup_insert_eq.
    now rewrite Hw2, list_lookup_alter_eq, Hw1, list_lookup_middle.
Qed.

End ServiceFacts.


(** ** Concrete runs *)

Section Runs.

Import Memory.

(** The scenario of the memory backend: write, exists, read, delete, exists. *)
Example memory_scenario :
  let fs1 := snd (Write "docs/a.txt" hello NewMemoryStorage) in
  let fs2 := snd (Delete "docs/a.txt" fs1) in
  Exists "docs/a.txt" NewMemoryStorage = (false, None)
  /\ Exists "docs/a.txt" fs1 = (true, None)
  /\ contents fs1 "docs/a.txt" = Some hello
  /\ fst (Delete "docs/a.txt" fs1) = None
  /\ Exists "docs/a.txt" fs2 = (false, None).
Proof. vm_compute. repeat split. Qed.

Example CreateDirectory_docs :
  fst (CreateDirectory "docs" NewMemoryStorage)
    = Some (errors_New "directory path must end with '/'")
  /\ fst (CreateDirectory "docs/" NewMemoryStorage) = None.
Proof. split; reflexivity. Qed.

Lemma Write_then_Read_witness :
  let xs :=
    [Call (OpWrite "docs/b.txt" hello); Store 1 0 x6a%byte;
     Call (OpCopy "docs/a.txt" "docs/c.txt");
     Call (OpCopy "docs/none.txt" "docs/a.txt");
     Call (OpUpload {| data := []; rerr := Some (errors_New "unexpected EOF") |}
             {| Filename := "a.txt" |} "docs");
     Call (OpRename "docs/b.txt" "docs/d.txt"); Call (OpDelete "docs/c.txt");
     Call (OpRead "docs/a.txt"); Call (OpCreateDirectory "docs/")] in
  undisturbed Join_clean "docs/a.txt" 0 xs
    (snd (Write "docs/a.txt" hello NewMemoryStorage)) = true
  /\ fst (Write "docs/a.txt" hello NewMemoryStorage) = None
  /\ exists r : Reader,
       let fs' :=
         perform Join_clean xs (snd (Write "docs/a.txt" hello NewMemoryStorage)) in
       Read "docs/a.txt" fs' = (Some r, None)
       /\ i r = 0 /\ ReadAll (heap fs') r = Some hello.
Proof.
  cbv zeta. split; [reflexivity|].
  apply (Write_then_Read Join_clean "docs/a.txt" hello NewMemoryStorage).
  reflexivity.
Defined.

(** C1 as stated fails: none of the calls it lists comes between the write
    and the read, and [Read(p)] does not give [c]. After [Write(p,
    "hello")], an [Upload] that stores at [p] makes [Read(p)] give the
    uploaded bytes; and the caller assigning [c[0] = 'j'] to the slice it
    passed makes [Read(p)] give "jello". *)
Lemma Write_then_Read_disturbed :
  let written := snd (Write "docs/a.txt" hello NewMemoryStorage) in
  let uploaded :=
    Upload Join_clean {| data := [x62; x79; x65]%byte; rerr := None |}
      {| Filename := "a.txt" |} "docs" written in
  let assigned := act Join_clean (Store 0 0 x6a%byte) written in
  fst (Write "docs/a.txt" hello NewMemoryStorage) = None
  /\ contents written "docs/a.txt" = Some hello
  /\ fst uploaded = (None, None)
  /\ contents (snd uploaded) "docs/a.txt" = Some [x62; x79; x65]%byte
  /\ contents assigned "docs/a.txt" = Some [x6a; x65; x6c; x6c; x6f]%byte.
Proof. vm_compute. repeat split. Qed.

(** C4 as stated fails when the two paths are one: [Rename("a", "a")]
    succeeds, and [Read("a")] after it is not the content from before but
    the not-found error. *)
Lemma Rename_same_path_loses_content :
  fst (Rename "a" "a" one_file) = None
  /\ contents one_file "a" = Some hello
  /\ Read "a" (snd (Rename "a" "a" one_file)) = (None, Some ErrNotExist)
  /\ contents (snd (Rename "a" "a" one_file)) "a" = None.
Proof. vm_compute. repeat split. Qed.

Lemma Rename_moves_witness :
  "a" <> "b"
  /\ fst (Rename "a" "b" one_file) = None
  /\ Exists "a" (snd (Rename "a" "b" one_file)) = (false, None)
  /\ contents (snd (Rename "a" "b" one_file)) "b" = Some hello.
Proof.
  assert (Hab : "a" <> "b") by discriminate.
  destruct (Rename_moves "a" "b" one_file) as (_ & _ & H).
  destruct (H eq_refl) as (He & Hr).
  destruct (Hr Hab) as (_ & Hc).
  split; [exact Hab|]. split; [reflexivity|]. split; [exact He|].
  rewrite Hc. reflexivity.
Defined.

Lemma Rename_same_path_removes_witness :
  fst (Exists "a" one_file) = true
  /\ fst (Rename "a" "a" one_file) = None
  /\ files (snd (Rename "a" "a" one_file)) = delete "a" (files one_file)
  /\ Exists "a" (snd (Rename "a" "a" one_file)) = (false, None)
  /\ Read "a" (snd (Rename "a" "a" one_file)) = (None, Some ErrNotExist).
Proof.
  split; [reflexivity|]. apply (Rename_same_path_removes "a" one_file).
  reflexivity.
Defined.

Lemma Copy_duplicates_witness :
  wf one_file /\ "a" <> "b"
  /\ fst (Copy "a" "b" one_file) = None
  /\ exists ca : bytes,
       let fs1 := snd (Copy "a" "b" one_file) in
       let fs2 := snd (Write "b" [] fs1) in
       contents one_file "a" = Some ca
       /\ Exists "a" fs1 = (true, None)
       /\ contents fs1 "a" = Some ca /\ contents fs1 "b" = Some ca
       /\ fst (Write "b" [] fs1) = None
       /\ contents fs2 "b" = Some [] /\ contents fs2 "a" = Some ca.
Proof.
  assert (Hwf : wf one_file) by (apply (bool_decide_unpack _); vm_compute; exact I).
  assert (Hab : "a" <> "b") by discriminate.
  split; [exact Hwf|]. split; [exact Hab|]. split; [reflexivity|].
  destruct (Copy_duplicates "a" "b" [] one_file Hwf Hab) as (_ & _ & H).
  exact (H eq_refl).
Defined.

Lemma Delete_removes_witness :
  Delete "b" one_file = (Some ErrNotExist, one_file)
  /\ fst (Delete "a" one_file) = None
  /\ Exists "a" (snd (Delete "a" one_file)) = (false, None).
Proof.
  split.
  - apply (proj1 (Delete_removes "b" one_file)). reflexivity.
  - apply (proj2 (Delete_removes "a" one_file)). reflexivity.
Defined.

End Runs.

Section ServiceRuns.

Import GCS Service.

(** The copy fails: its error comes back and no delete is asked. *)
Example Rename_copy_fails :
  let '(r, w', t) :=
    run client (Rename bucket_b "p" "q") (one_object [Some (errors_New "boom")]) in
  r = Some (errors_New "boom")
  /\ stored bucket_b w' "p" = Some hello /\ stored bucket_b w' "q" = None
  /\ length t = 1.
Proof. vm_compute. repeat split. Qed.

(** No failure: the object has moved. *)
Example Rename_moves_object :
  let '(r, w', t) := run client (Rename bucket_b "p" "q") (one_object []) in
  r = None
  /\ stored bucket_b w' "p" = None /\ stored bucket_b w' "q" = Some hello
  /\ length t = 2.
Proof. vm_compute. repeat split. Qed.

Lemma Rename_copy_then_delete_witness :
  let w := one_object [None; Some (errors_New "boom")] in
  let done := run client (Rename bucket_b "p" "q") w in
  fst (fst done) = Some (errors_New "boom")
  /\ stored bucket_b (snd (fst done)) "p" = Some hello
  /\ stored bucket_b (snd (fst done)) "q" = Some hello
  /\ fst (fst (run client (Exists bucket_b "p") (with_faults [] (snd (fst done)))))
     = (true, None)
  /\ fst (fst (run client (Exists bucket_b "q") (with_faults [] (snd (fst done)))))
     = (true, None).
Proof.
  cbv zeta.
  set (w := one_object [None; Some (errors_New "boom")]).
  set (done := run client (Rename bucket_b "p" "q") w).
  assert (H : done
              = (Some (errors_New "boom"), snd (fst done),
                 [Ev (CopierRun (Object bucket_b "q") (Object bucket_b "p"));
                  Ev (ObjDelete (Object bucket_b "p"))]))
    by reflexivity.
  destruct (proj2 (Rename_copy_then_delete bucket_b "p" "q") w _ _ H)
    as (c & H1 & H2 & H3 & H4 & H5).
  assert (Hc : c = hello) by (vm_compute in H1; injection H1 as <-; reflexivity).
  subst c. split; [reflexivity|]. repeat split; assumption.
Defined.

(** C2 as stated fails on the memory backend: the upload succeeds, the
    bytes are stored, and the handle is nil; [Open] of the path fails. *)
Lemma Upload_memory_returns_nil :
  let up :=
    Memory.Upload Memory.Join_clean {| data := hello; rerr := None |}
      {| Filename := "a.txt" |} "docs" Memory.NewMemoryStorage in
  fst up = (None, None)
  /\ Memory.contents (snd up) "docs/a.txt" = Some hello
  /\ Memory.Open "docs/a.txt" (snd up)
     = (None, Some (errors_New "open is not supported for in-memory storage")).
Proof. vm_compute. repeat split. Qed.

Lemma Upload_stores_witness :
  let file := {| data := hello; rerr := None |} in
  let header := {| Filename := "a.txt" |} in
  let mem :=
    Memory.Upload Memory.Join_clean file header "docs" Memory.NewMemoryStorage in
  let up := run client (Upload bucket_b file header "docs") (fresh []) in
  (fst mem = (None, None) /\ Memory.contents (snd mem) "docs/a.txt" = Some hello)
  /\ fst (fst up) = (Some {| fd := 0 |}, None)
  /\ stored bucket_b (snd (fst up)) "docs/a.txt" = Some hello
  /\ temps (snd (fst up)) !! 0 = Some (hello, 0).
Proof.
  cbv zeta.
  set (file := {| data := hello; rerr := None |}).
  set (header := {| Filename := "a.txt" |}).
  destruct (Upload_stores file header "docs") as (Hmem & _ & Hgcs).
  split; [exact (Hmem Memory.Join_clean Memory.NewMemoryStorage eq_refl)|].
  set (up := run client (Upload bucket_b file header "docs") (fresh [])).
  assert (H : up = ((Some {| fd := 0 |}, None), snd (fst up), snd up))
    by reflexivity.
  destruct (Hgcs bucket_b (fresh []) _ _ _ H) as (Hs & f & Hf & Ht).
  injection Hf as <-.
  split; [reflexivity|]. split; [exact Hs | exact Ht].
Defined.

End ServiceRuns.


(** * Further properties *)

(** ** The memory backend *)

Section MemoryExtras.

Import Memory.

Variable filepath_Join : string -> string -> string.



Lemma same_entry_same_contents (p : string) (fs fs' : state) :
  wf fs ->
  files fs' !! p = files fs !! p ->
  (forall (a : addr) (x : bytes), heap fs !! a = Some x -> heap fs' !! a = Some x) ->
  contents fs' p = contents fs p.
Proof.
  intros Hwf Hf Hh. destruct (files fs !! p) as [f|] eqn:E.
  - rewrite (contents_present p fs' f Hf), (contents_present p fs f E).
    destruct (lookup_lt_is_Some_2 (heap fs) (buf (Content f)) (Hwf _ _ E))
      as [c Hc].
    rewrite (Hh _ _ Hc). symmetry. exact Hc.
  - now rewrite (contents_absent p fs' Hf), (contents_absent p fs E).
Qed.


(** X2. [Read], [GetUrl] and [Exists] agree on what is stored: for a stored
    path [Read] gives a reader at the start with a nil error and [GetUrl]
    gives "mem://" followed by the path; for an absent one [Read] gives a
    nil reader and [GetUrl] the empty string, both with the not-found
    error. *)
Theorem presence_agrees (p : string) (fs : state) :
  (fst (Exists p fs) = true <->
     exists r : Reader, Read p fs = (Some r, None) /\ i r = 0)
  /\ (fst (Exists p fs) = true <-> GetUrl p fs = ("mem://" +:+ p, None))
  /\ (fst (Exists p fs) = false <-> Read p fs = (None, Some ErrNotExist))
  /\ (fst (Exists p fs) = false <-> GetUrl p fs = (EmptyString, Some ErrNotExist)).
Proof.
  unfold GetUrl. rewrite Exists_true, Exists_false. unfold Exists, Read. simpl.
  destruct (files fs !! p) as [f|] eqn:E.
  - rewrite bool_decide_eq_true_2 by eauto. simpl.
    split; [split; eauto|]. split; [split; eauto|].
    split; split; congruence.
  - rewrite bool_decide_eq_false_2 by (intros [? ?]; congruence). simpl.
    split; [split; [intros [? ?]; congruence | intros (r & Hr & _); congruence]|].
    split; [split; [intros [? ?]; congruence | congruence]|].
    split; split; congruence.
Qed.

(** X3. When the uploaded stream fails, [Upload] returns a nil handle and
    the read error, and stores nothing: the map of files is as it was, and
    in a well-formed store every path reads back the bytes it had. *)
Theorem Upload_read_error_keeps_store (file : Stream) (header : FileHeader)
    (dir : string) (fs : state) (e : error) :
  rerr file = Some e ->
  fst (Upload filepath_Join file header dir fs) = (None, Some e)
  /\ files (snd (Upload filepath_Join file header dir fs)) = files fs
  /\ (wf fs ->
      forall p : string,
        contents (snd (Upload filepath_Join file header dir fs)) p
        = contents fs p).
Proof.
  intros He. unfold Upload. simpl. rewrite He. simpl.
  split; [reflexivity|]. split; [reflexivity|]. intros Hwf p.
  apply same_entry_same_contents; [exact Hwf | reflexivity|].
  intros a x Hx. simpl. now apply lookup_app_l_Some.
Qed.

(** X4. Whatever calls were made on a new backend, the store is well
    formed, and every path that [Exists] reports can be read back in
    full. *)
Theorem reachable_store_readable (ops : list op) (p : string) :
  let fs := exec filepath_Join ops NewMemoryStorage in
  wf fs
  /\ (fst (Exists p fs) = true -> exists c : bytes, contents fs p = Some c).
Proof.
  cbv zeta.
  pose proof (wf_exec filepath_Join ops _ wf_NewMemoryStorage) as Hwf.
  split; [exact Hwf|]. rewrite Exists_true. intros [f Hf].
  exact (wf_contents p _ f Hwf Hf).
Qed.

End MemoryExtras.

Section MemoryEdges.

Import Memory.

(** X5. [Copy(a, a)] of a stored path returns nil and keeps the object:
    the path is still there with the bytes it had, and no other entry
    changes. ([Rename(a, a)] removes it.) *)
Theorem Copy_same_path_keeps (a : string) (fs : state) :
  fst (Exists a fs) = true ->
  fst (Copy a a fs) = None
  /\ Exists a (snd (Copy a a fs)) = (true, None)
  /\ contents (snd (Copy a a fs)) a = contents fs a
  /\ heap (snd (Copy a a fs)) = heap fs
  /\ forall q : string,
       q <> a -> files (snd (Copy a a fs)) !! q = files fs !! q.
Proof.
  rewrite Exists_true. intros [f Hf]. unfold Copy. rewrite Hf. simpl.
  split; [reflexivity|].
  split; [eapply Exists_present; simpl; apply lookup_insert_eq|].
  split.
  - erewrite contents_present by (simpl; apply lookup_insert_eq).
    now rewrite (contents_present a fs f Hf).
  - split; [reflexivity|]. intros q Hq. now rewrite lookup_insert_ne.
Qed.

(** X6. For distinct paths with [a] stored and [b] absent, [Rename(a, b)]
    followed by [Rename(b, a)] succeeds twice and gives back the store it
    started from. *)
Theorem Rename_there_and_back (a b : string) (fs : state) :
  a <> b ->
  fst (Exists a fs) = true ->
  fst (Exists b fs) = false ->
  fst (Rename a b fs) = None
  /\ fst (Rename b a (snd (Rename a b fs))) = None
  /\ snd (Rename b a (snd (Rename a b fs))) = fs.
Proof.
  intros Hab. rewrite Exists_true, Exists_false. intros [f Ha] Hb.
  assert (Hb1 : delete a (<[b:=f]> (files fs)) !! b = Some f)
    by now rewrite lookup_delete_ne, lookup_insert_eq.
  assert (H1 : Rename a b fs
               = (None, {| files := delete a (<[b:=f]> (files fs));
                           heap := heap fs |}))
    by (unfold Rename; now rewrite Ha).
  rewrite H1. simpl.
  assert (H2 : Rename b a {| files := delete a (<[b:=f]> (files fs));
                             heap := heap fs |}
               = (None,
                  {| files :=
                       delete b (<[a:=f]> (delete a (<[b:=f]> (files fs))));
                     heap := heap fs |}))
    by (unfold Rename; simpl; now rewrite Hb1).
  rewrite H2. simpl.
  split; [reflexivity|]. split; [reflexivity|].
  destruct fs as [m h]. simpl in *. f_equal.
  apply map_eq. intros k.
  destruct (decide (k = b)) as [->|Hkb].
  - now rewrite lookup_delete_eq, Hb.
  - rewrite lookup_delete_ne by congruence.
    destruct (decide (k = a)) as [->|Hka].
    + now rewrite lookup_insert_eq, Ha.
    + rewrite lookup_insert_ne by congruence.
      rewrite lookup_delete_ne by congruence.
      now rewrite lookup_insert_ne by congruence.
Qed.

End MemoryEdges.

Section MemoryNames.

Import Memory.

Lemma names_ok_insert (path : string) (b : Buffer) (m : gmap string File) :
  map_Forall (fun k f => Name f = k) m ->
  map_Forall (fun k f => Name f = k) (<[path := {| Name := path; Content := b |}]> m).
Proof. intros H. now apply map_Forall_insert_2. Qed.

(** X7. Every call but [Rename] keeps each entry filed under its own
    [Name]. [Rename(a, b)] does not: for distinct paths it files the entry
    of [a] under [b] with its [Name] still [a]. *)
Theorem Name_follows_key_except_Rename :
  (forall (filepath_Join : string -> string -> string) (o : op) (fs : state),
     is_rename o = false ->
     names_ok fs -> names_ok (step filepath_Join o fs))
  /\ (forall (a b : string) (fs : state),
        a <> b -> names_ok fs -> fst (Exists a fs) = true ->
        exists f : File,
          files (snd (Rename a b fs)) !! b = Some f /\ Name f = a
          /\ ~ names_ok (snd (Rename a b fs))).
Proof.
  split.
  - intros J o fs Hr Hok. unfold names_ok in *.
    destruct o; simpl in *; try exact Hok; try discriminate Hr.
    + now apply names_ok_insert.
    + unfold Delete. destruct (files fs !! path); simpl; [|exact Hok].
      now apply map_Forall_delete.
    + unfold Copy. destruct (files fs !! sourcePath); simpl; [|exact Hok].
      now apply names_ok_insert.
    + unfold CreateDirectory. destruct (negb _); exact Hok.
    + unfold Upload. simpl. destruct (rerr file); simpl; [exact Hok|].
      now apply names_ok_insert.
  - intros a b fs Hab Hok. rewrite Exists_true. intros [f Hf].
    exists f. unfold Rename. rewrite Hf. simpl.
    assert (Hb : delete a (<[b:=f]> (files fs)) !! b = Some f)
      by now rewrite lookup_delete_ne, lookup_insert_eq.
    pose proof (Hok a f Hf) as Hn. simpl in Hn.
    split; [exact Hb|]. split; [exact Hn|].
    intros Hbad. apply Hab. rewrite <- Hn. exact (Hbad b f Hb).
Qed.

End MemoryNames.


(** ** Strings, continued *)

Lemma prefix_spec (s1 s2 : string) :
  String.prefix s1 s2 = true <-> exists b : string, s2 = s1 +:+ b.
Proof.
  revert s2. induction s1 as [|c s1 IH]; intros s2.
  - split; [intros _; now exists s2 | intros _; now destruct s2].
  - destruct s2 as [|d s2]; simpl.
    + split; [discriminate | intros [b Hb]; discriminate Hb].
    + destruct (Ascii.ascii_dec c d) as [Hcd|Hcd].
      * rewrite IH. subst d. split; intros [b Hb]; exists b; [now rewrite Hb|].
        now injection Hb.
      * split; [discriminate | intros [b Hb]; injection Hb; congruence].
Qed.

Lemma Contains_unfold (s substr : string) :
  Contains s substr
  = String.prefix substr s
    || match s with
       | EmptyString => false
       | String _ rest => Contains rest substr
       end.
Proof. now destruct s. Qed.

(** [strings.Contains] decides [occurs_in]. *)
Lemma Contains_spec (s substr : string) :
  Contains s substr = true <-> occurs_in substr s.
Proof.
  unfold occurs_in. split.
  - induction s as [|c s IH]; rewrite Contains_unfold, orb_true_iff.
    + intros [H|H]; [|discriminate H].
      apply prefix_spec in H as [b Hb]. now exists EmptyString, b.
    + intros [H|H].
      * apply prefix_spec in H as [b Hb]. now exists EmptyString, b.
      * destruct (IH H) as (a & b & ->). now exists (String c a), b.
  - intros (a & b & ->). induction a as [|c a IH].
    + rewrite Contains_unfold, orb_true_iff. left. apply prefix_spec. now exists b.
    + simpl. rewrite IH. apply orb_true_r.
Qed.


(** ** The GCS backend, for every client *)

Section GCSExtras.

Import GCS.

(** X8. Against every client, [Exists(path)] makes one metadata request;
    it answers [(true, nil)] when the request succeeds, [(false, nil)] when
    it fails with [storage.ErrObjectNotExist], and [(false, err)] with the
    error unchanged for any other failure. *)
Theorem Exists_translates_absence (gcs : GCSStorage) (path : string)
    (W : Type) (h : handler W) (w : W) :
  let probe := ObjAttrs (Object gcs path) in
  snd (run h (Exists gcs path) w) = [Ev probe]
  /\ snd (fst (run h (Exists gcs path) w)) = snd (h _ probe w)
  /\ (forall a : ObjectAttrs,
        fst (h _ probe w) = inl a ->
        fst (fst (run h (Exists gcs path) w)) = (true, None))
  /\ (fst (h _ probe w) = inr ErrObjectNotExist ->
      fst (fst (run h (Exists gcs path) w)) = (false, None))
  /\ (forall e : error,
        fst (h _ probe w) = inr e -> e <> ErrObjectNotExist ->
        fst (fst (run h (Exists gcs path) w)) = (false, Some e)).
Proof.
  cbv zeta. unfold Exists. simpl.
  destruct (h _ (ObjAttrs (Object gcs path)) w) as [[a|e] w1]; simpl.
  - repeat split; intros; congruence.
  - destruct (decide (e = ErrObjectNotExist)) as [->|Hne]; simpl;
      repeat split; intros; congruence.
Qed.

(** X9. Against every client, [Open(path)] returns either a handle with a
    nil error or a nil handle with an error, never both or neither. When
    the reader cannot be opened, that error is returned and nothing else is
    requested (no temporary file is made); when it can, the last request is
    the close of that reader, on success and on every failure. *)
Theorem Open_handle_or_error (gcs : GCSStorage) (path : string)
    (W : Type) (h : handler W) (w : W) :
  let out := run h (Open gcs path) w in
  let opening := NewReader (Object gcs path) in
  ((exists f : OsFile, fst (fst out) = (Some f, None))
   \/ (exists e : error, fst (fst out) = (None, Some e)))
  /\ match fst (h _ opening w) with
     | inr e => out = ((None, Some e), snd (h _ opening w), [Ev opening])
     | inl rc => last (snd out) = Some (Ev (ReaderClose rc))
     end.
Proof.
  cbv zeta. unfold Open, defer. simpl.
  destruct (h _ (NewReader (Object gcs path)) w) as [[rc|e] w1]; simpl;
    [|split; [right; eauto | reflexivity]].
  destruct (h _ (os_CreateTemp _ _) w1) as [[f|e] w2]; simpl.
  - destruct (h _ (io_Copy_File f rc) w2) as [[n [e|]] w3]; simpl.
    + destruct (h _ (FileClose f) w3) as [ce w4]; simpl.
      destruct (h _ (ReaderClose rc) w4) as [re w5]; simpl.
      split; [right; eauto | reflexivity].
    + destruct (h _ (FileSeek f 0 0) w3) as [[m [e|]] w4]; simpl.
      * destruct (h _ (FileClose f) w4) as [ce w5]; simpl.
        destruct (h _ (ReaderClose rc) w5) as [re w6]; simpl.
        split; [right; eauto | reflexivity].
      * destruct (h _ (ReaderClose rc) w4) as [re w5]; simpl.
        split; [left; eauto | reflexivity].
  - destruct (h _ (ReaderClose rc) w2) as [re w3]; simpl.
    split; [right; eauto | reflexivity].
Qed.

(** X10. Against every client, [CreateDirectory(path)] opens a writer on
    the object [path + "/"] and closes it at once, with nothing written. It
    returns nil exactly when the close succeeds or fails with an error
    whose message contains "PreconditionFailed"; any other error of the
    close is returned unchanged. *)
Theorem CreateDirectory_marker (gcs : GCSStorage) (path : string)
    (W : Type) (h : handler W) (w : W) :
  let marker := Object gcs (path +:+ "/") in
  let wr := fst (h _ (NewWriter marker) w) in
  let closed := fst (h _ (WriterClose wr) (snd (h _ (NewWriter marker) w))) in
  let out := run h (CreateDirectory gcs path) w in
  snd out = [Ev (NewWriter marker); Ev (WriterClose wr)]
  /\ (fst (fst out) = None <->
      closed = None
      \/ exists e : error,
           closed = Some e /\ occurs_in "PreconditionFailed" (Error e))
  /\ (forall e : error,
        closed = Some e -> ~ occurs_in "PreconditionFailed" (Error e) ->
        fst (fst out) = Some e).
Proof.
  cbv zeta. unfold CreateDirectory. simpl.
  destruct (h _ (NewWriter _) w) as [wr w1]. simpl.
  destruct (h _ (WriterClose wr) w1) as [[e|] w2]; simpl.
  - destruct (Contains (Error e) "PreconditionFailed") eqn:HC; simpl.
    + apply Contains_spec in HC.
      split; [reflexivity|]. split; [split; eauto|].
      intros e' [= <-] Hno. contradiction.
    + assert (Hno : ~ occurs_in "PreconditionFailed" (Error e))
        by (rewrite <- Contains_spec; congruence).
      split; [reflexivity|]. split; [|intros e' [= <-] _; reflexivity].
      split; [discriminate|]. intros [H|(e' & [= <-] & H)];
        [discriminate H | contradiction].
  - split; [reflexivity|]. split; [split; eauto | intros e H; discriminate H].
Qed.

End GCSExtras.


(** ** The GCS backend against the reference client, continued *)

Section ServiceExtras.

Import GCS Service.

Ltac next_fault H w1 Hf :=
  let f := fresh "f" in
  unfold guarded in H;
  match type of H with
  | context [plan ?x] =>
      destruct (plan x) as [f w1] eqn:Hf;
      apply plan_frame in Hf;
      destruct f; simpl in H
  end.

Ltac error_clash H :=
  apply (f_equal (fun x => snd (fst (fst x)))) in H; simpl in H; discriminate H.

Ltac result_of H Hr Hs :=
  pose proof (f_equal (fun x => fst (fst x)) H) as Hr;
  pose proof (f_equal (fun x => snd (fst x)) H) as Hs;
  simpl in Hr, Hs; clear H.

(** A world whose plan is empty, taken apart. *)
Ltac quiet_world w Hq :=
  destruct w as [objs ws ts fl ab]; unfold quiet in Hq; simpl in Hq; subst fl.

Lemma key_other (gcs : GCSStorage) (p q : string) :
  q <> p -> key (Object gcs q) <> key (Object gcs p).
Proof. unfold key, Object. simpl. congruence. Qed.

(** X11. For an object name the library accepts, against a client that
    lets every request through, [Write(p, c)] returns nil and stores exactly
    [c] at [p] (the empty [c] too), leaving every other object as it was;
    [Read(p)] after it gives a reader over [c]. *)
Theorem Write_then_Read_stored (gcs : GCSStorage) (p : string) (c : bytes)
    (w : world) :
  accepted (Object gcs p) = true ->
  quiet w ->
  let w1 := snd (fst (run client (Write gcs p c) w)) in
  fst (fst (run client (Write gcs p c) w)) = None
  /\ quiet w1
  /\ stored gcs w1 p = Some c
  /\ (forall q : string, q <> p -> stored gcs w1 q = stored gcs w q)
  /\ fst (fst (run client (Read gcs p) w1)) = (Some {| body := c |}, None).
Proof.
  intros _ Hq. quiet_world w Hq. cbv zeta. unfold Write, Read, defer, stored.
  simpl. rewrite list_lookup_alter_eq, list_lookup_middle by done. simpl.
  split; [reflexivity|]. split; [reflexivity|].
  split; [apply lookup_insert_eq|].
  split; [intros q Hq; apply lookup_insert_ne; apply not_eq_sym, key_other, Hq|].
  unfold guarded. simpl. now rewrite lookup_insert_eq.
Qed.

(** X12. For object names the library accepts, against a client that lets
    every request through, on a path where nothing is stored: [Read],
    [Delete], [Copy] from it, [Rename] from it and [Open] each make one
    request and return the error the client answers for an absent object,
    unchanged (whichever error that is; it is not turned into
    [os.ErrNotExist]); [Rename] asks for no delete and [Open] makes no
    temporary file; nothing changes. [Exists] answers [(false, nil)] when
    the client's answer is the sentinel [storage.ErrObjectNotExist] itself,
    and [(false, err)] with that answer otherwise. *)
Theorem absent_object_errors (gcs : GCSStorage) (p q : string) (w : world) :
  accepted (Object gcs p) = true -> accepted (Object gcs q) = true ->
  quiet w -> stored gcs w p = None ->
  run client (Read gcs p) w
    = ((None, Some (absent w ByReader)), w, [Ev (NewReader (Object gcs p))])
  /\ run client (Delete gcs p) w
     = (Some (absent w ByDelete), w, [Ev (ObjDelete (Object gcs p))])
  /\ run client (Copy gcs p q) w
     = (Some (absent w ByCopy), w,
        [Ev (CopierRun (Object gcs q) (Object gcs p))])
  /\ run client (Rename gcs p q) w
     = (Some (absent w ByCopy), w,
        [Ev (CopierRun (Object gcs q) (Object gcs p))])
  /\ run client (Open gcs p) w
     = ((None, Some (absent w ByReader)), w, [Ev (NewReader (Object gcs p))])
  /\ run client (Exists gcs p) w
     = ((false,
         if decide (absent w ByAttrs = ErrObjectNotExist) then None
         else Some (absent w ByAttrs)),
        w, [Ev (ObjAttrs (Object gcs p))]).
Proof.
  intros _ _ Hq Hp. quiet_world w Hq. unfold stored in Hp. simpl in Hp.
  unfold Read, Delete, Copy, Rename, Copy, Open, Exists, defer. simpl.
  unfold guarded. simpl. rewrite Hp. simpl.
  destruct (decide (ab ByAttrs = ErrObjectNotExist)); repeat split.
Qed.


(** X14. For object names the library accepts, against a client that lets
    every request through, [Copy(src, dst)] of a stored object returns nil, stores the content of [src] at
    [dst], keeps [src] and every other object; a later [Write(dst, c')]
    changes [dst] and not [src] when the paths differ. *)
Theorem Copy_stored_duplicates (gcs : GCSStorage) (src dst : string)
    (c c' : bytes) (w : world) :
  accepted (Object gcs src) = true ->
  accepted (Object gcs dst) = true ->
  quiet w -> stored gcs w src = Some c ->
  let w1 := snd (fst (run client (Copy gcs src dst) w)) in
  let w2 := snd (fst (run client (Write gcs dst c') w1)) in
  fst (fst (run client (Copy gcs src dst) w)) = None
  /\ stored gcs w1 src = Some c /\ stored gcs w1 dst = Some c
  /\ (forall q : string, q <> dst -> stored gcs w1 q = stored gcs w q)
  /\ stored gcs w2 dst = Some c'
  /\ (src <> dst -> stored gcs w2 src = Some c).
Proof.
  intros _ _ Hq Hp. quiet_world w Hq. unfold stored in *. simpl in Hp.
  cbv zeta. unfold Copy, Write, defer. simpl. unfold guarded. simpl.
  rewrite Hp. simpl.
  rewrite list_lookup_alter_eq, list_lookup_middle by done. simpl.
  assert (Hs : <[key (Object gcs dst) := c]> objs !! key (Object gcs src) = Some c).
  { destruct (decide (key (Object gcs dst) = key (Object gcs src)))
      as [->|Hne]; [apply lookup_insert_eq | now rewrite lookup_insert_ne]. }
  split; [reflexivity|]. split; [exact Hs|]. split; [apply lookup_insert_eq|].
  split; [intros q Hn; apply lookup_insert_ne; apply not_eq_sym, key_other, Hn|].
  split; [apply lookup_insert_eq|].
  intros Hne. rewrite lookup_insert_ne by (apply key_other; congruence).
  exact Hs.
Qed.

(** X15. [Delete(p)] against the reference client: when the request is let
    through and [p] is stored, it returns nil, [p] is gone and every other
    object is as it was; when the request is made to fail, the error comes
    back unchanged and the bucket is as it was. *)
Theorem Delete_stored_removes (gcs : GCSStorage) (p : string) (w : world) :
  (forall c : bytes,
     fst (plan w) = None -> stored gcs w p = Some c ->
     let w1 := snd (fst (run client (Delete gcs p) w)) in
     fst (fst (run client (Delete gcs p) w)) = None
     /\ stored gcs w1 p = None
     /\ forall q : string, q <> p -> stored gcs w1 q = stored gcs w q)
  /\ (forall e : error,
        fst (plan w) = Some e ->
        fst (fst (run client (Delete gcs p) w)) = Some e
        /\ objects (snd (fst (run client (Delete gcs p) w))) = objects w).
Proof.
  unfold Delete, stored. simpl. unfold guarded.
  destruct (plan w) as [f w1] eqn:Hf. apply plan_frame in Hf as (Ho & _ & _).
  simpl. split.
  - intros c -> Hc. rewrite <- Ho in Hc. rewrite Hc. simpl.
    split; [reflexivity|]. split; [apply lookup_delete_eq|].
    intros q Hq. rewrite lookup_delete_ne by (apply not_eq_sym, key_other, Hq).
    now rewrite Ho.
  - intros e ->. simpl. split; [reflexivity | exact Ho].
Qed.


Lemma Open_asks (gcs : GCSStorage) (path : string) (w : world) :
  0 < length (snd (run client (Open gcs path) w)).
Proof.
  unfold Open. cbn [mbind prog_bind bind request run].
  destruct (client _ (NewReader (Object gcs path)) w) as [r w1].
  match goal with
  | |- context [run client ?m w1] => destruct (run client m w1) as [[a w2] t]
  end.
  simpl. lia.
Qed.

(** [Open] never changes the bucket, and hands out no file with an error. *)
Lemma Open_client_frame (gcs : GCSStorage) (path : string) (w w' : world)
    (handle : option OsFile) (err : option error) (t : list event) :
  run client (Open gcs path) w = ((handle, err), w', t) ->
  objects w' = objects w /\ (forall e : error, err = Some e -> handle = None).
Proof.
  intros H. unfold Open, defer in H. simpl in H.
  next_fault H w1 Hf1; destruct Hf1 as (Ho1 & _ & _);
    [result_of H Hr Hs; simplify_eq; split; [congruence | reflexivity]|].
  destruct (objects w1 !! key (Object gcs path)) as [c|] eqn:Hc; simpl in H;
    [|result_of H Hr Hs; simplify_eq; split; [congruence | reflexivity]].
  next_fault H w2 Hf2; destruct Hf2 as (Ho2 & _ & _);
    [result_of H Hr Hs; simplify_eq; split; [congruence | reflexivity]|].
  next_fault H w3 Hf3; destruct Hf3 as (Ho3 & _ & _); simpl in Ho3;
    [result_of H Hr Hs; simplify_eq; split; [congruence | reflexivity]|].
  next_fault H w4 Hf4; destruct Hf4 as (Ho4 & _ & _); simpl in Ho4;
    result_of H Hr Hs; simplify_eq; (split; [simpl; congruence|]);
    [reflexivity | discriminate].
Qed.

(** X17. An [Upload] that returns an error returns a nil handle, and it
    failed in one of two ways. Either the put failed (the stream, the copy
    or the close of the writer): then [Open] was never asked, and the
    bucket and the temporary files are as they were. Or the put went
    through and the download after it failed: then the bytes of the stream
    are stored at [dir/name] although [Upload] reports the error. *)
Theorem Upload_failure_modes (gcs : GCSStorage) (file : Stream)
    (header : FileHeader) (dir : string) (w w' : world)
    (handle : option OsFile) (e : error) (t : list event) :
  run client (Upload gcs file header dir) w = ((handle, Some e), w', t) ->
  handle = None
  /\ ((length t <= 3 /\ objects w' = objects w /\ temps w' = temps w)
      \/ (3 < length t
          /\ stored gcs w' (dir +:+ "/" +:+ Filename header)
             = Some (data file))).
Proof.
  intros H. rewrite Upload_run in H. cbv zeta in H.
  set (open := run client (Open gcs (dir +:+ "/" +:+ Filename header))) in H.
  simpl in H. next_fault H w1 Hf1; destruct Hf1 as (Ho1 & Hw1 & Ht1);
    simpl in Ho1, Hw1, Ht1.
  { pose proof (f_equal (fun x => length (snd x)) H) as Hl.
    result_of H Hr Hs. simplify_eq. simpl in Hl.
    split; [reflexivity|]. left. split; [lia|]. now split. }
  destruct (rerr file) as [re|] eqn:Hre.
  { pose proof (f_equal (fun x => length (snd x)) H) as Hl.
    result_of H Hr Hs. simplify_eq. simpl in Hl.
    split; [reflexivity|]. left. split; [lia|]. now split. }
  next_fault H w2 Hf2; destruct Hf2 as (Ho2 & Hw2 & Ht2);
    simpl in Ho2, Hw2, Ht2.
  { pose proof (f_equal (fun x => length (snd x)) H) as Hl.
    result_of H Hr Hs. simplify_eq. simpl in Hl.
    split; [reflexivity|]. left. split; [lia|]. split; congruence. }
  match type of H with
  | context [open ?x] =>
      pose proof (Open_asks gcs (dir +:+ "/" +:+ Filename header) x) as Hlen;
      fold open in Hlen;
      destruct (open x) as [[[hd err] w4] opened] eqn:HO
  end.
  pose proof (f_equal (fun x => length (snd x)) H) as Hl.
  result_of H Hr Hs. simplify_eq. simpl in Hl, Hlen. subst open.
  apply Open_client_frame in HO as (Hobj & Hnil).
  split; [now apply (Hnil e)|]. right. split; [lia|].
  unfold stored. rewrite Hobj. simpl. rewrite lookup_insert_eq.
  now rewrite Hw2, list_lookup_alter_eq, Hw1, list_lookup_middle.
Qed.

End ServiceExtras.


(** ** Concrete runs, continued *)

Section MoreRuns.

Import Memory.


Lemma Upload_read_error_keeps_store_witness :
  let file := {| data := hello; rerr := Some (errors_New "unexpected EOF") |} in
  let header := {| Filename := "a" |} in
  rerr file = Some (errors_New "unexpected EOF")
  /\ fst (Upload (fun _ name => name) file header "" one_file)
     = (None, Some (errors_New "unexpected EOF"))
  /\ files (snd (Upload (fun _ name => name) file header "" one_file))
     = files one_file
  /\ contents (snd (Upload (fun _ name => name) file header "" one_file)) "a"
     = contents one_file "a".
Proof.
  cbv zeta.
  destruct (Upload_read_error_keeps_store (fun _ name => name)
              {| data := hello; rerr := Some (errors_New "unexpected EOF") |}
              {| Filename := "a" |} "" one_file
              (errors_New "unexpected EOF") eq_refl)
    as (Hr & Hf & Hc).
  split; [reflexivity|]. split; [exact Hr|]. split; [exact Hf|].
  apply Hc. apply (bool_decide_unpack _). vm_compute. exact I.
Defined.

Lemma Copy_same_path_keeps_witness :
  fst (Exists "a" one_file) = true
  /\ fst (Copy "a" "a" one_file) = None
  /\ Exists "a" (snd (Copy "a" "a" one_file)) = (true, None)
  /\ contents (snd (Copy "a" "a" one_file)) "a" = contents one_file "a".
Proof.
  destruct (Copy_same_path_keeps "a" one_file eq_refl) as (H1 & H2 & H3 & _).
  split; [reflexivity|]. split; [exact H1|]. split; [exact H2 | exact H3].
Defined.

Lemma Rename_there_and_back_witness :
  "a" <> "b"
  /\ fst (Exists "a" one_file) = true /\ fst (Exists "b" one_file) = false
  /\ fst (Rename "a" "b" one_file) = None
  /\ fst (Rename "b" "a" (snd (Rename "a" "b" one_file))) = None
  /\ snd (Rename "b" "a" (snd (Rename "a" "b" one_file))) = one_file.
Proof.
  assert (Hab : "a" <> "b") by discriminate.
  split; [exact Hab|]. split; [reflexivity|]. split; [reflexivity|].
  exact (Rename_there_and_back "a" "b" one_file Hab eq_refl eq_refl).
Defined.

Lemma Name_follows_key_except_Rename_witness :
  names_ok one_file
  /\ names_ok (step Join_clean (OpCopy "a" "b") one_file)
  /\ exists f : File,
       files (snd (Rename "a" "b" one_file)) !! "b" = Some f /\ Name f = "a"
       /\ ~ names_ok (snd (Rename "a" "b" one_file)).
Proof.
  assert (Hok : names_ok one_file)
    by (apply (bool_decide_unpack _); vm_compute; exact I).
  assert (Hab : "a" <> "b") by discriminate.
  destruct Name_follows_key_except_Rename as (Hkeep & Hbreak).
  split; [exact Hok|].
  split; [exact (Hkeep Join_clean (OpCopy "a" "b") one_file eq_refl Hok)|].
  exact (Hbreak "a" "b" one_file Hab Hok eq_refl).
Defined.

End MoreRuns.

Section MoreServiceRuns.

Import GCS Service.

Lemma Write_then_Read_stored_witness :
  let w := fresh [] in
  let w1 := snd (fst (run client (Write bucket_b "p" hello) w)) in
  accepted (Object bucket_b "p") = true /\ quiet w
  /\ fst (fst (run client (Write bucket_b "p" hello) w)) = None
  /\ stored bucket_b w1 "p" = Some hello
  /\ fst (fst (run client (Read bucket_b "p") w1)) = (Some {| body := hello |}, None).
Proof.
  cbv zeta.
  destruct (Write_then_Read_stored bucket_b "p" hello (fresh []) eq_refl eq_refl)
    as (Hr & _ & Hs & _ & Hread).
  split; [reflexivity|]. split; [reflexivity|]. split; [exact Hr|]. split; [exact Hs | exact Hread].
Defined.

(** Names the library takes, and names it refuses. *)
Example accepted_names :
  accepted (Object bucket_b "p") = true
  /\ accepted (Object bucket_b "docs/a.txt") = true
  /\ accepted (Object bucket_b "") = false
  /\ accepted (Object bucket_b "..") = false
  /\ accepted (Object {| BucketName := "" |} "p") = false.
Proof. repeat split. Qed.

Lemma absent_object_errors_witness :
  let gone := errors_New "googleapi: Error 404: No such object" in
  let w :=
    {| objects := ∅; writers := []; temps := []; faults := [];
       absent := fun _ => gone |} in
  (accepted (Object bucket_b "q") = true /\ accepted (Object bucket_b "r") = true
   /\ quiet w /\ stored bucket_b w "q" = None)
  /\ fst (fst (run client (Read bucket_b "q") w)) = (None, Some gone)
  /\ fst (fst (run client (Delete bucket_b "q") w)) = Some gone
  /\ fst (fst (run client (Rename bucket_b "q" "r") w)) = Some gone
  /\ fst (fst (run client (Exists bucket_b "q") w)) = (false, Some gone)
  /\ fst (fst (run client (Exists bucket_b "q") (one_object []))) = (false, None).
Proof.
  cbv zeta.
  set (gone := errors_New "googleapi: Error 404: No such object").
  set (w := {| objects := ∅; writers := []; temps := []; faults := [];
               absent := fun _ => gone |}).
  destruct (absent_object_errors bucket_b "q" "r" w eq_refl eq_refl eq_refl eq_refl)
    as (Hread & Hdel & _ & Hren & _ & Hex).
  destruct (absent_object_errors bucket_b "q" "r" (one_object [])
              eq_refl eq_refl eq_refl eq_refl) as (_ & _ & _ & _ & _ & Hex').
  split; [repeat split|].
  rewrite Hread, Hdel, Hren, Hex, Hex'. repeat split.
Defined.


Lemma Copy_stored_duplicates_witness :
  let w1 := snd (fst (run client (Copy bucket_b "p" "q") (one_object []))) in
  let w2 := snd (fst (run client (Write bucket_b "q" []) w1)) in
  accepted (Object bucket_b "p") = true /\ accepted (Object bucket_b "q") = true
  /\ quiet (one_object []) /\ stored bucket_b (one_object []) "p" = Some hello
  /\ stored bucket_b w1 "q" = Some hello
  /\ stored bucket_b w2 "q" = Some [] /\ stored bucket_b w2 "p" = Some hello.
Proof.
  cbv zeta.
  destruct (Copy_stored_duplicates bucket_b "p" "q" hello [] (one_object [])
              eq_refl eq_refl eq_refl eq_refl) as (_ & _ & Hq & _ & Hq2 & Hp2).
  split; [reflexivity|]. split; [reflexivity|]. split; [reflexivity|]. split; [reflexivity|]. split; [exact Hq|].
  split; [exact Hq2|]. apply Hp2. discriminate.
Defined.

Lemma Delete_stored_removes_witness :
  let boom := errors_New "boom" in
  (fst (fst (run client (Delete bucket_b "p") (one_object []))) = None
   /\ stored bucket_b
        (snd (fst (run client (Delete bucket_b "p") (one_object [])))) "p"
      = None)
  /\ fst (fst (run client (Delete bucket_b "p") (one_object [Some boom])))
     = Some boom
  /\ objects (snd (fst (run client (Delete bucket_b "p") (one_object [Some boom]))))
     = objects (one_object [Some boom]).
Proof.
  cbv zeta. split.
  - destruct (proj1 (Delete_stored_removes bucket_b "p" (one_object []))
                hello eq_refl eq_refl) as (Hr & Hs & _).
    split; [exact Hr | exact Hs].
  - exact (proj2 (Delete_stored_removes bucket_b "p"
                    (one_object [Some (errors_New "boom")]))
             (errors_New "boom") eq_refl).
Defined.


Lemma Upload_failure_modes_witness :
  let file := {| data := hello; rerr := None |} in
  let header := {| Filename := "a.txt" |} in
  let up :=
    run client (Upload bucket_b file header "docs")
      (fresh [None; None; Some (errors_New "boom")]) in
  fst (fst up) = (None, Some (errors_New "boom"))
  /\ 3 < length (snd up)
  /\ stored bucket_b (snd (fst up)) "docs/a.txt" = Some hello.
Proof.
  cbv zeta.
  set (file := {| data := hello; rerr := None |}).
  set (header := {| Filename := "a.txt" |}).
  set (up := run client (Upload bucket_b file header "docs")
               (fresh [None; None; Some (errors_New "boom")])).
  assert (H : up = ((None, Some (errors_New "boom")), snd (fst up), snd up))
    by reflexivity.
  destruct (Upload_failure_modes bucket_b file header "docs" _ _ _ _ _ H)
    as (_ & [(Hl & _) | (Hl & Hs)]).
  - vm_compute in Hl. lia.
  - split; [reflexivity|]. split; [exact Hl | exact Hs].
Defined.

End MoreServiceRuns.
